(** * Spark SpMV architecture model (include/Spark/SimpleSpmv.hpp)

    A shallow embedding of the cycle-count policies, the metric queries and
    the design-space enumerator of [SimpleSpmv.hpp], and the properties the
    specification states about them.

    Conventions.
    - A C++ [int] / [int32_t] is a [Z]; every arithmetic result is checked
      against the 32-bit two's complement range, and leaving the range is
      undefined behaviour (signed overflow), as are a read outside an array,
      a remainder by zero and a conversion of an out-of-range [double] to
      [int].
    - A [double] is a [spec_float] of the Standard Library at precision 53
      and maximal exponent 1024 (IEEE 754 binary64, round to nearest even).
    - A fragment of C++ evaluates to an [outcome]: a value, undefined
      behaviour, or the exhaustion of the iteration budget given to its
      [do ... while] loops. *)

From Stdlib Require Import ZArith QArith Qround List Lia Bool.
From Stdlib Require Import Permutation Sorted.
From Stdlib Require String Ascii DecimalString DecimalZ DecimalPos.
From Stdlib Require Import Floats.SpecFloat.
Import ListNotations.
Close Scope Q_scope.
Open Scope Z_scope.

(* ------------------------------------------------------------------ *)
(** ** Outcomes *)

Inductive outcome (A : Type) : Type :=
| Ok (a : A)
| Undefined
| OutOfFuel.

Arguments Ok {A} a.
Arguments Undefined {A}.
Arguments OutOfFuel {A}.

Definition bind {A B : Type} (m : outcome A) (k : A -> outcome B) : outcome B :=
  match m with
  | Ok a => k a
  | Undefined => Undefined
  | OutOfFuel => OutOfFuel
  end.

Notation "x <- m ;; k" := (bind m (fun x => k))
  (at level 61, m at next level, right associativity).
Notation "' p <- m ;; k" := (bind m (fun x => match x with p => k end))
  (at level 61, p pattern, m at next level, right associativity).

(* ------------------------------------------------------------------ *)
(** ** The C++ [int] *)

Module Int.

Definition min_signed : Z := -2147483648.
Definition max_signed : Z := 2147483647.

Definition in_range (z : Z) : bool := (min_signed <=? z) && (z <=? max_signed).

Definition checked (z : Z) : outcome Z := if in_range z then Ok z else Undefined.

Definition add (a b : Z) : outcome Z := checked (a + b).
Definition sub (a b : Z) : outcome Z := checked (a - b).
Definition mul (a b : Z) : outcome Z := checked (a * b).

(** [a % b]: the remainder of the division truncated towards zero. *)
Definition rem (a b : Z) : outcome Z :=
  if b =? 0 then Undefined
  else if (a =? min_signed) && (b =? -1) then Undefined
  else Ok (Z.rem a b).

End Int.

(* ------------------------------------------------------------------ *)
(** ** Arrays and loops *)

(** [v[i]] for an array [v] of [length v] elements. *)
Definition read (v : list Z) (i : Z) : outcome Z :=
  if i <? 0 then Undefined
  else match nth_error v (Z.to_nat i) with
       | Some x => Ok x
       | None => Undefined
       end.

(** [for (int i = i0; i < i0 + n; i++) s = body(i, s)]; the counter stays
    below the bound, an [int], so its increment cannot overflow. *)
Fixpoint for_loop {S : Type} (body : Z -> S -> outcome S) (n : nat) (i : Z) (s : S)
  : outcome S :=
  match n with
  | O => Ok s
  | Datatypes.S n' => s' <- body i s ;; for_loop body n' (i + 1) s'
  end.

(** [do s = body(s) while (cond(s))], at most [fuel] iterations. *)
Fixpoint do_while {S : Type} (body : S -> outcome S) (cond : S -> bool)
  (fuel : nat) (s : S) : outcome S :=
  match fuel with
  | O => OutOfFuel
  | Datatypes.S fuel' =>
      s' <- body s ;;
      if cond s' then do_while body cond fuel' s' else Ok s'
  end.

(** [v[i] - (i > 0 ? v[i - 1] : 0)] *)
Definition row_toread (v : list Z) (i : Z) : outcome Z :=
  vi <- read v i ;;
  prev <- (if i >? 0 then read v (i - 1) else Ok 0) ;;
  Int.sub vi prev.

(* ------------------------------------------------------------------ *)
(** ** FstSpmvArchitecture::cycleCount (lines 175-185) *)

Module FstSpmvArchitecture.

(** The loop variables live across the [do ... while]: [(toread, cycles)]. *)
Definition drain_body (inputWidth : Z) (s : Z * Z) : outcome (Z * Z) :=
  let '(toread, cycles) := s in
  toread <- Int.sub toread (Z.min toread inputWidth) ;;
  cycles <- Int.add cycles 1 ;;
  Ok (toread, cycles).

Definition drain_cond (s : Z * Z) : bool := fst s >? 0.

Definition row_body (fuel : nat) (v : list Z) (inputWidth : Z) (i : Z) (cycles : Z)
  : outcome Z :=
  toread <- row_toread v i ;;
  s <- do_while (drain_body inputWidth) drain_cond fuel (toread, cycles) ;;
  Ok (snd s).

Definition cycleCount (fuel : nat) (v : list Z) (size : Z) (inputWidth : Z) : outcome Z :=
  for_loop (row_body fuel v inputWidth) (Z.to_nat size) 0 0.

End FstSpmvArchitecture.

(* ------------------------------------------------------------------ *)
(** ** SkipEmptyRowsArchitecture::cycleCount (lines 203-224) *)

Module SkipEmptyRowsArchitecture.

(** [cycles], [crtPos] and [prevtoread], the variables that live across the
    rows. *)
Record loop_state : Type := {
  cycles : Z;
  crtPos : Z;
  prevtoread : Z
}.

(** Variables of the [do ... while]: [(cycles, crtPos, toread)]. *)
Definition drain_body (inputWidth : Z) (s : Z * Z * Z) : outcome (Z * Z * Z) :=
  let '(cycles, crtPos, toread) := s in
  room <- Int.sub inputWidth crtPos ;;
  let canread := Z.min room toread in
  crtPos <- Int.add crtPos canread ;;
  crtPos <- Int.rem crtPos inputWidth ;;
  cycles <- Int.add cycles 1 ;;
  toread <- Int.sub toread canread ;;
  Ok (cycles, crtPos, toread).

Definition drain_cond (s : Z * Z * Z) : bool := snd s >? 0.

Definition row_body (fuel : nat) (v : list Z) (inputWidth : Z) (i : Z) (st : loop_state)
  : outcome loop_state :=
  toread <- row_toread v i ;;
  if (toread =? 0) && (prevtoread st =? 0) then Ok st
  else
    cycles1 <- (if toread =? 0 then Int.add (cycles st) 1 else Ok (cycles st)) ;;
    s <- do_while (drain_body inputWidth) drain_cond fuel (cycles1, crtPos st, toread) ;;
    Ok {| cycles := fst (fst s); crtPos := snd (fst s); prevtoread := toread |}.

Definition init : loop_state := {| cycles := 0; crtPos := 0; prevtoread := -1 |}.

Definition run (fuel : nat) (v : list Z) (size : Z) (inputWidth : Z) : outcome loop_state :=
  for_loop (row_body fuel v inputWidth) (Z.to_nat size) 0 init.

Definition cycleCount (fuel : nat) (v : list Z) (size : Z) (inputWidth : Z) : outcome Z :=
  st <- run fuel v size inputWidth ;; Ok (cycles st).

End SkipEmptyRowsArchitecture.

(* ------------------------------------------------------------------ *)
(** ** SimpleSpmvArchitecture::cycleCount (declared at line 53) *)

Module SimpleSpmvArchitecture.

(** Modelled from the spec: the body of [SimpleSpmvArchitecture::cycleCount],
    which the header only declares.  "For each row, repeatedly subtract up
    to [inputWidth] from its remaining nonzero count, one cycle per
    subtraction, until the row's remainder reaches zero; a row with zero
    nonzeros still consumes one cycle"; row [i]'s count is
    [rowDeltas[i] - rowDeltas[i-1]], with [rowDeltas[-1] = 0]. *)
Definition subtract_once (inputWidth : Z) (s : Z * Z) : outcome (Z * Z) :=
  let '(remaining, cycles) := s in
  remaining <- Int.sub remaining (Z.min remaining inputWidth) ;;
  cycles <- Int.add cycles 1 ;;
  Ok (remaining, cycles).

Definition not_drained (s : Z * Z) : bool := negb (fst s =? 0).

Definition row_body (fuel : nat) (rowDeltas : list Z) (inputWidth : Z) (i : Z) (cycles : Z)
  : outcome Z :=
  count <- row_toread rowDeltas i ;;
  s <- do_while (subtract_once inputWidth) not_drained fuel (count, cycles) ;;
  Ok (snd s).

Definition cycleCount (fuel : nat) (rowDeltas : list Z) (size : Z) (inputWidth : Z)
  : outcome Z :=
  for_loop (row_body fuel rowDeltas inputWidth) (Z.to_nat size) 0 0.

End SimpleSpmvArchitecture.

(* ------------------------------------------------------------------ *)
(** ** The C++ [double] *)

Module Double.

Definition prec : Z := 53.
Definition emax : Z := 1024.

Definition mul : spec_float -> spec_float -> spec_float := SFmul prec emax.
Definition div : spec_float -> spec_float -> spec_float := SFdiv prec emax.

(** [(double) z] for an integer [z]; exact when [|z| < 2^53]. *)
Definition of_int (z : Z) : spec_float := binary_normalize prec emax z 0 false.

(** [(int) f]: the fractional part is discarded; undefined when the
    truncated value is not an [int], or [f] is not finite. *)
Definition to_int (f : spec_float) : outcome Z :=
  match f with
  | S754_zero _ => Ok 0
  | S754_finite s m e => Int.checked (cond_Zopp s (Z.shiftl (Zpos m) e))
  | S754_infinity _ => Undefined
  | S754_nan => Undefined
  end.

(** The literals [512.0], [2.0] and [1E9]. *)
Definition lit_512 : spec_float := of_int 512.
Definition lit_2 : spec_float := of_int 2.
Definition lit_1E9 : spec_float := of_int 1000000000.

End Double.

(** Where a rational lies between two integers: [l] locates [m + r / D]
    with respect to [m], as the rounding of [SpecFloat] expects it. *)
Definition loc_matches (l : location) (r D : Z) : Prop :=
  0 <= r < D /\
  match l with
  | loc_Exact => r = 0
  | loc_Inexact Lt => 0 < r /\ 2 * r < D
  | loc_Inexact Eq => 2 * r = D
  | loc_Inexact Gt => D < 2 * r
  end.

(* ------------------------------------------------------------------ *)
(** ** Data of the architecture model *)

Record indptr_value : Type := {
  value : spec_float;
  indptr : Z
}.

Record BlockingResult : Type := {
  nPartitions : Z;
  n : Z;
  paddingCycles : Z;
  totalCycles : Z;
  vector_load_cycles : Z;
  outSize : Z;
  m_colptr : list Z;
  m_indptr_values : list indptr_value
}.

(** Modelled from the spec: [EigenSparseMatrix], the row-major compressed
    matrix of the external linear-algebra library: "row-pointer array of
    length n+1, paired arrays of column index and value of length nnz";
    [nonZeros()] is the number of stored entries, with the matrix's 32-bit
    index type. *)
Record EigenSparseMatrix : Type := {
  rowPtr : list Z;
  colIdx : list Z;
  values : list spec_float
}.

Definition nonZeros (m : EigenSparseMatrix) : Z := Z.of_nat (length (values m)).

Definition empty_matrix : EigenSparseMatrix :=
  {| rowPtr := [0]; colIdx := []; values := [] |}.

(** Modelled from the spec: [ResourceUsage] of [Spark/Spmv.hpp], four
    counters initialised in the order LUTs, FFs, DSPs, BRAMs. *)
Record ResourceUsage : Type := {
  luts : Z;
  ffs : Z;
  dsps : Z;
  brams : Z
}.

(** [std::max_element(first, last, comp)]: the first of the largest
    elements, or [last] when the range is empty. *)
Fixpoint max_element_from {A : Type} (comp : A -> A -> bool) (largest : A) (l : list A) : A :=
  match l with
  | [] => largest
  | x :: l' => max_element_from comp (if comp largest x then x else largest) l'
  end.

Definition max_element {A : Type} (comp : A -> A -> bool) (l : list A) : option A :=
  match l with
  | [] => None
  | x :: l' => Some (max_element_from comp x l')
  end.

(** The fields of [SimpleSpmvArchitecture], shared by its subclasses. *)
Record Architecture : Type := {
  cacheSize : Z;
  inputWidth : Z;
  numPipes : Z;
  mat : EigenSparseMatrix;
  partitions : list BlockingResult
}.

(** What a constructor call can raise. *)
Inductive exception : Type :=
| InvalidConfiguration.

(** Lines 62-65,
    [SimpleSpmvArchitecture(int _cacheSize, int _inputWidth, int _numPipes)]:
    three member initialisers, the matrix and the blocking results are
    default-constructed; nothing is thrown. *)
Definition construct (_cacheSize _inputWidth _numPipes : Z) : exception + Architecture :=
  inr {| cacheSize := _cacheSize;
         inputWidth := _inputWidth;
         numPipes := _numPipes;
         mat := empty_matrix;
         partitions := [] |}.

(** Lines 69-75: the largest element by [totalCycles], dereferenced, and its
    [int] converted to the [double] returned. *)
Definition getEstimatedClockCycles (a : Architecture) : outcome spec_float :=
  match max_element (fun x y => totalCycles x <? totalCycles y) (partitions a) with
  | Some res => Ok (Double.of_int (totalCycles res))
  | None => Undefined
  end.

(** Lines 77-79: [2 * this->mat.nonZeros() / 1E9], a product in the
    matrix's 32-bit index type, converted and divided as a [double]. *)
Definition getGFlopsCount (a : Architecture) : outcome spec_float :=
  twice <- Int.mul 2 (nonZeros (mat a)) ;;
  Ok (Double.div (Double.of_int twice) Double.lit_1E9).

(** Lines 82-86:
    [int brams = (double)cacheSize * (double)inputWidth / 512.0 * 2.0;
     return ResourceUsage{-1, -1, -1, brams};] *)
Definition getResourceUsage (a : Architecture) : outcome ResourceUsage :=
  brams <- Double.to_int
             (Double.mul
                (Double.div
                   (Double.mul (Double.of_int (cacheSize a)) (Double.of_int (inputWidth a)))
                   Double.lit_512)
                Double.lit_2) ;;
  Ok {| luts := -1; ffs := -1; dsps := -1; brams := brams |}.

(* ------------------------------------------------------------------ *)
(** ** The design-space enumerator (lines 118-168) *)

Module Range.

(** Modelled from the spec: [spark::utils::Range] of [Spark/Utils.hpp], "a
    deterministic, restartable enumerator over an integer arithmetic range
    (start, stop, step)": the cursor [crt] advances by [step] and wraps back
    to [start] once it passes [stop], so that [1024, 4096, 512] has seven
    values and [8, 100, 8] has twelve. *)
Record t : Type := {
  start : Z;
  stop : Z;
  step : Z;
  crt : Z
}.

Definition make (start stop step : Z) : t :=
  {| start := start; stop := stop; step := step; crt := start |}.

Definition set_crt (r : t) (c : Z) : t :=
  {| start := start r; stop := stop r; step := step r; crt := c |}.

(** [++r] *)
Definition incr (r : t) : t :=
  let c := crt r + step r in
  set_crt r (if c >? stop r then start r else c).

Definition at_start (r : t) : bool := crt r =? start r.

Definition restart (r : t) : t := set_crt r (start r).

End Range.

Section SimpleSpmvArchitectureSpace.

(** The template parameter [T] and its three-argument constructor. *)
Variable T : Type.
Variable new_T : Z -> Z -> Z -> T.

Record Space : Type := {
  cacheSizeR : Range.t;
  inputWidthR : Range.t;
  numPipesR : Range.t;
  last : bool
}.

(** The default member initialisers, kept by the argument-less constructor. *)
Definition default_space : Space :=
  {| cacheSizeR := Range.make 1024 4096 512;
     inputWidthR := Range.make 8 100 8;
     numPipesR := Range.make 1 6 1;
     last := false |}.

Definition restart (s : Space) : Space :=
  {| cacheSizeR := Range.restart (cacheSizeR s);
     inputWidthR := Range.restart (inputWidthR s);
     numPipesR := Range.restart (numPipesR s);
     last := false |}.

Definition set_cacheSizeR (s : Space) (r : Range.t) : Space :=
  {| cacheSizeR := r; inputWidthR := inputWidthR s; numPipesR := numPipesR s;
     last := last s |}.

Definition set_inputWidthR (s : Space) (r : Range.t) : Space :=
  {| cacheSizeR := cacheSizeR s; inputWidthR := r; numPipesR := numPipesR s;
     last := last s |}.

Definition set_numPipesR (s : Space) (r : Range.t) : Space :=
  {| cacheSizeR := cacheSizeR s; inputWidthR := inputWidthR s; numPipesR := r;
     last := last s |}.

Definition set_last (s : Space) (b : bool) : Space :=
  {| cacheSizeR := cacheSizeR s; inputWidthR := inputWidthR s;
     numPipesR := numPipesR s; last := b |}.

(** [doNext]: [None] is the null pointer. *)
Definition doNext (s : Space) : option T * Space :=
  if last s then (None, s)
  else
    let result := new_T (Range.crt (cacheSizeR s)) (Range.crt (inputWidthR s))
                        (Range.crt (numPipesR s)) in
    let s := set_cacheSizeR s (Range.incr (cacheSizeR s)) in
    if Range.at_start (cacheSizeR s) then
      let s := set_inputWidthR s (Range.incr (inputWidthR s)) in
      if Range.at_start (inputWidthR s) then
        let s := set_numPipesR s (Range.incr (numPipesR s)) in
        if Range.at_start (numPipesR s) then (Some result, set_last s true)
        else (Some result, s)
      else (Some result, s)
    else (Some result, s).

(** [k] successive calls of [doNext]: what they returned, and the state left. *)
Fixpoint doNext_times (k : nat) (s : Space) : list (option T) * Space :=
  match k with
  | O => ([], s)
  | Datatypes.S k' =>
      let '(r, s1) := doNext s in
      let '(rs, s2) := doNext_times k' s1 in
      (r :: rs, s2)
  end.

End SimpleSpmvArchitectureSpace.

Arguments doNext {T} new_T s.
Arguments doNext_times {T} new_T k s.

(* ------------------------------------------------------------------ *)
(** ** BlockingResult::to_string (lines 30-38) *)

Module Text.

Import String Ascii.

(** [s << z] for an [int] on a stream in its default state: decimal, a
    minus sign for a negative value. *)
Definition show_int (z : Z) : string :=
  DecimalString.NilZero.string_of_int (Z.to_int z).

(** [s << std::endl]: a line feed. *)
Definition endl : string := String "010"%char EmptyString.

Definition to_string (r : BlockingResult) : string :=
  ("Vector load cycles " ++ show_int (vector_load_cycles r) ++ endl ++
   "Padding cycles = " ++ show_int (paddingCycles r) ++ endl ++
   "Total cycles = " ++ show_int (totalCycles r) ++ endl ++
   "Nrows = " ++ show_int (n r) ++ endl ++
   "Partitions = " ++ show_int (nPartitions r) ++ endl)%string.

(** No line feed among the characters of [s]. *)
Fixpoint one_line (s : string) : Prop :=
  match s with
  | EmptyString => True
  | String c s' => c <> "010"%char /\ one_line s'
  end.

End Text.

(* ------------------------------------------------------------------ *)
(** ** tests/test_utils.hpp *)

(** [v[i]] for a [std::vector] of any element type. *)
Definition at_index {A : Type} (v : list A) (i : Z) : outcome A :=
  if i <? 0 then Undefined
  else match nth_error v (Z.to_nat i) with
       | Some x => Ok x
       | None => Undefined
       end.

(** What [check] writes to [std::cout], piece by piece: the line
    [Results didn't match], and a line [i: Exp: x got: y] with the three
    values streamed into it. *)
Inductive printed : Type :=
| Printed_header
| Printed_line (i : Z) (after_Exp after_got : spec_float).

Section TestUtils.

(** [dfesnippets::numeric_utils::almost_equal (a, b, 1E-10, 1E-15)], of a
    library that is not part of the repository. *)
Variable almost_equal : spec_float -> spec_float -> bool.

(** The body of the first loop of [check] (lines 18-21). *)
Definition check_body (got exp : list spec_float) (i : Z)
  (mismatches : list (Z * spec_float * spec_float))
  : outcome (list (Z * spec_float * spec_float)) :=
  g <- at_index got i ;;
  e <- at_index exp i ;;
  if negb (almost_equal g e) then Ok (mismatches ++ [(i, g, e)])
  else Ok mismatches.

(** The body of the loop that prints (lines 25-28): [std::get<1>] after
    [Exp:], [std::get<2>] after [got:]. *)
Definition print_body (mismatches : list (Z * spec_float * spec_float)) (i : Z)
  (out : list printed) : outcome (list printed) :=
  m <- at_index mismatches i ;;
  Ok (out ++ [Printed_line i (snd (fst m)) (snd m)]).

(** [check (got, exp)] (lines 13-31): the mismatches returned and the text
    printed.  The counters are [int]s, so a vector of more than [INT_MAX]
    elements overflows them. *)
Definition check (got exp : list spec_float)
  : outcome (list (Z * spec_float * spec_float) * list printed) :=
  if Z.of_nat (length got) >? Int.max_signed then Undefined
  else
    mismatches <- for_loop (check_body got exp) (length got) 0 [] ;;
    out <- (match mismatches with
            | [] => Ok []
            | _ :: _ =>
                for_loop (print_body mismatches) (length mismatches) 0 [Printed_header]
            end) ;;
    Ok (mismatches, out).

End TestUtils.

(* ------------------------------------------------------------------ *)
(** * Properties *)

(** ** Outcomes, integers and loops *)

Lemma bind_Ok_inv {A B : Type} (m : outcome A) (k : A -> outcome B) (b : B) :
  bind m k = Ok b -> exists a, m = Ok a /\ k a = Ok b.
Proof.
  destruct m as [a| |]; simpl; intros H; try discriminate.
  exists a; split; [reflexivity | exact H].
Qed.

Lemma in_range_iff (z : Z) :
  Int.in_range z = true <-> Int.min_signed <= z <= Int.max_signed.
Proof. unfold Int.in_range. rewrite andb_true_iff, !Z.leb_le. tauto. Qed.

Lemma checked_ok (z : Z) :
  Int.min_signed <= z <= Int.max_signed -> Int.checked z = Ok z.
Proof.
  intros H. unfold Int.checked. apply in_range_iff in H. rewrite H. reflexivity.
Qed.

Lemma checked_inv (z r : Z) :
  Int.checked z = Ok r -> r = z /\ Int.min_signed <= z <= Int.max_signed.
Proof.
  unfold Int.checked. destruct (Int.in_range z) eqn:E; intros H; try discriminate.
  inversion H; subst. split; [reflexivity | apply in_range_iff; exact E].
Qed.

Lemma for_loop_ext {S : Type} (f g : Z -> S -> outcome S) :
  (forall i s, f i s = g i s) ->
  forall k i s, for_loop f k i s = for_loop g k i s.
Proof.
  intros E k. induction k as [|k IH]; intros i s; simpl.
  - reflexivity.
  - rewrite E. destruct (g i s); simpl; auto.
Qed.

(** Running one more iteration is running the body once more at the end. *)
Lemma for_loop_snoc {S : Type} (body : Z -> S -> outcome S) :
  forall k i s,
    for_loop body (Datatypes.S k) i s =
    (s' <- for_loop body k i s ;; body (i + Z.of_nat k) s').
Proof.
  intros k. induction k as [|k IH]; intros i s.
  - simpl. replace (i + 0) with i by lia.
    destruct (body i s); reflexivity.
  - change (for_loop body (Datatypes.S (Datatypes.S k)) i s)
      with (s' <- body i s ;; for_loop body (Datatypes.S k) (i + 1) s').
    change (for_loop body (Datatypes.S k) i s)
      with (s' <- body i s ;; for_loop body k (i + 1) s').
    destruct (body i s) as [s1| |]; cbn [bind]; try reflexivity.
    rewrite IH. replace (i + 1 + Z.of_nat k) with (i + Z.of_nat (Datatypes.S k)) by lia.
    reflexivity.
Qed.

(* ------------------------------------------------------------------ *)
(** ** The Simple and Fst policies *)

Section SimplePolicy.

Variable inputWidth : Z.

(** After one subtraction the remainder is never negative, so the source's
    test [toread > 0] and the specification's "until zero" agree. *)
Lemma drain_body_nonneg (s s' : Z * Z) :
  FstSpmvArchitecture.drain_body inputWidth s = Ok s' -> 0 <= fst s'.
Proof.
  destruct s as [t c]. unfold FstSpmvArchitecture.drain_body.
  intros H. apply bind_Ok_inv in H as (t' & Ht & H).
  apply bind_Ok_inv in H as (c' & _ & H). inversion H; subst; simpl.
  apply checked_inv in Ht as [-> _]. lia.
Qed.

Lemma drain_agree (fuel : nat) :
  forall s,
    do_while (FstSpmvArchitecture.drain_body inputWidth)
             FstSpmvArchitecture.drain_cond fuel s =
    do_while (SimpleSpmvArchitecture.subtract_once inputWidth)
             SimpleSpmvArchitecture.not_drained fuel s.
Proof.
  induction fuel as [|fuel IH]; intros s; simpl; [reflexivity|].
  change (SimpleSpmvArchitecture.subtract_once inputWidth s)
    with (FstSpmvArchitecture.drain_body inputWidth s).
  destruct (FstSpmvArchitecture.drain_body inputWidth s) as [s'| |] eqn:E;
    simpl; try reflexivity.
  apply drain_body_nonneg in E.
  unfold FstSpmvArchitecture.drain_cond, SimpleSpmvArchitecture.not_drained.
  rewrite IH.
  destruct (fst s' >? 0) eqn:G, (fst s' =? 0) eqn:Z0; simpl; try reflexivity; lia.
Qed.

Lemma row_body_agree (fuel : nat) (v : list Z) (i cycles : Z) :
  FstSpmvArchitecture.row_body fuel v inputWidth i cycles =
  SimpleSpmvArchitecture.row_body fuel v inputWidth i cycles.
Proof.
  unfold FstSpmvArchitecture.row_body, SimpleSpmvArchitecture.row_body.
  destruct (row_toread v i); simpl; try reflexivity.
  rewrite drain_agree. reflexivity.
Qed.

Lemma cycleCount_agree (fuel : nat) (v : list Z) (size : Z) :
  FstSpmvArchitecture.cycleCount fuel v size inputWidth =
  SimpleSpmvArchitecture.cycleCount fuel v size inputWidth.
Proof.
  unfold FstSpmvArchitecture.cycleCount, SimpleSpmvArchitecture.cycleCount.
  apply for_loop_ext. intros i s. apply row_body_agree.
Qed.

(** An empty row drains in one iteration. *)
Lemma drain_empty (fuel : nat) (cycles : Z) :
  (0 < fuel)%nat -> 0 <= inputWidth ->
  Int.min_signed <= cycles -> cycles + 1 <= Int.max_signed ->
  do_while (FstSpmvArchitecture.drain_body inputWidth)
           FstSpmvArchitecture.drain_cond fuel (0, cycles) = Ok (0, cycles + 1).
Proof.
  intros Hf Hw Hlo Hhi. destruct fuel as [|fuel]; [lia|]. simpl.
  unfold Int.sub, Int.add. rewrite Z.min_l by lia.
  rewrite (checked_ok (0 - 0)) by (unfold Int.min_signed, Int.max_signed; lia). simpl.
  rewrite (checked_ok (cycles + 1)) by lia. simpl. reflexivity.
Qed.

(** A row of [toread > 0] entries drains in [ceil (toread / inputWidth)]
    iterations. *)
Lemma drain_positive (fuel : nat) :
  forall toread cycles,
    0 < inputWidth -> 0 < toread <= Int.max_signed ->
    Int.min_signed <= cycles ->
    cycles + (toread + inputWidth - 1) / inputWidth <= Int.max_signed ->
    (Z.to_nat ((toread + inputWidth - 1) / inputWidth) <= fuel)%nat ->
    do_while (FstSpmvArchitecture.drain_body inputWidth)
             FstSpmvArchitecture.drain_cond fuel (toread, cycles) =
    Ok (0, cycles + (toread + inputWidth - 1) / inputWidth).
Proof.
  induction fuel as [|fuel IH]; intros toread cycles Hw Ht Hlo Hhi Hf.
  - assert (1 <= (toread + inputWidth - 1) / inputWidth)
      by (apply Z.div_le_lower_bound; lia).
    lia.
  - assert (Hq : 1 <= (toread + inputWidth - 1) / inputWidth)
      by (apply Z.div_le_lower_bound; lia).
    simpl. unfold Int.sub, Int.add.
    destruct (Z.le_gt_cases toread inputWidth) as [Hle | Hgt].
    + rewrite Z.min_l by lia.
      replace (toread - toread) with 0 by lia.
      rewrite (checked_ok 0) by (unfold Int.min_signed, Int.max_signed; lia). simpl.
      rewrite (checked_ok (cycles + 1)) by lia. simpl.
      assert ((toread + inputWidth - 1) / inputWidth = 1) as ->.
      { symmetry. apply Z.div_unique with (r := toread - 1); lia. }
      reflexivity.
    + rewrite Z.min_r by lia.
      assert (Hstep : (toread + inputWidth - 1) / inputWidth =
                      (toread - inputWidth + inputWidth - 1) / inputWidth + 1).
      { replace (toread + inputWidth - 1)
          with ((toread - inputWidth + inputWidth - 1) + 1 * inputWidth) by lia.
        rewrite Z.div_add by lia. reflexivity. }
      assert (Hq' : 1 <= (toread - inputWidth + inputWidth - 1) / inputWidth)
        by (apply Z.div_le_lower_bound; lia).
      rewrite (checked_ok (toread - inputWidth))
        by (unfold Int.min_signed, Int.max_signed in *; lia). simpl.
      rewrite (checked_ok (cycles + 1)) by lia. simpl.
      unfold FstSpmvArchitecture.drain_cond. simpl.
      destruct (toread - inputWidth >? 0) eqn:G; [|lia].
      rewrite IH; try lia.
      rewrite Hstep. f_equal. f_equal. lia.
Qed.

End SimplePolicy.

(** A block of empty rows: one cycle per row. *)
Lemma fst_empty_rows (fuel : nat) (v : list Z) (inputWidth : Z) :
  (0 < fuel)%nat -> 0 <= inputWidth ->
  forall k i cycles,
    (forall j, i <= j < i + Z.of_nat k -> row_toread v j = Ok 0) ->
    Int.min_signed <= cycles -> cycles + Z.of_nat k <= Int.max_signed ->
    for_loop (FstSpmvArchitecture.row_body fuel v inputWidth) k i cycles =
    Ok (cycles + Z.of_nat k).
Proof.
  intros Hf Hw k. induction k as [|k IH]; intros i cycles Hrows Hlo Hhi.
  - simpl. f_equal. lia.
  - cbn [for_loop]. unfold FstSpmvArchitecture.row_body at 1.
    rewrite Hrows by lia. cbn [bind].
    rewrite drain_empty by lia. cbn [bind snd].
    rewrite IH; try lia.
    + f_equal. lia.
    + intros j Hj. apply Hrows. lia.
Qed.

(** C9. A block of [size == 0] costs no cycle under each of the three
    policies (Simple, Fst, SkipEmptyRows), whatever the array of row deltas,
    the input width and the iteration budget: the loop over the rows does
    not execute. *)
Theorem cycleCount_size_zero (fuel : nat) (v : list Z) (inputWidth : Z) :
  SimpleSpmvArchitecture.cycleCount fuel v 0 inputWidth = Ok 0 /\
  FstSpmvArchitecture.cycleCount fuel v 0 inputWidth = Ok 0 /\
  SkipEmptyRowsArchitecture.cycleCount fuel v 0 inputWidth = Ok 0.
Proof. repeat split; reflexivity. Qed.

(** C5. On every input (row deltas, size, input width), and with every
    iteration budget, the Fst policy's [cycleCount] has the same outcome as
    the Simple policy's: the same count, or the same failure. *)
Theorem fst_cycleCount_is_simple (fuel : nat) (v : list Z) (size inputWidth : Z) :
  FstSpmvArchitecture.cycleCount fuel v size inputWidth =
  SimpleSpmvArchitecture.cycleCount fuel v size inputWidth.
Proof. apply cycleCount_agree. Qed.

(** C2. Under the Simple policy, and under the Fst policy: a block whose
    rows are all empty costs [size] cycles, one per row; a block of a single
    row of [k > 0] entries costs [ceil (k / w)] cycles at input width
    [w > 0], given an iteration budget of at least that many. *)
Theorem simple_cycleCount_empty_and_single (fuel : nat) (inputWidth : Z) :
  (forall (v : list Z) (size : Z),
      (0 < fuel)%nat -> 0 <= inputWidth ->
      0 <= size <= Int.max_signed ->
      (forall j, 0 <= j < size -> row_toread v j = Ok 0) ->
      SimpleSpmvArchitecture.cycleCount fuel v size inputWidth = Ok size /\
      FstSpmvArchitecture.cycleCount fuel v size inputWidth = Ok size) /\
  (forall (k : Z) (rest : list Z),
      0 < inputWidth -> 0 < k <= Int.max_signed ->
      (Z.to_nat ((k + inputWidth - 1) / inputWidth) <= fuel)%nat ->
      SimpleSpmvArchitecture.cycleCount fuel (k :: rest) 1 inputWidth =
        Ok ((k + inputWidth - 1) / inputWidth) /\
      FstSpmvArchitecture.cycleCount fuel (k :: rest) 1 inputWidth =
        Ok ((k + inputWidth - 1) / inputWidth)).
Proof.
  split.
  - intros v size Hf Hw Hsize Hrows.
    rewrite <- cycleCount_agree.
    assert (E : FstSpmvArchitecture.cycleCount fuel v size inputWidth = Ok size).
    { unfold FstSpmvArchitecture.cycleCount.
      rewrite fst_empty_rows; try assumption.
      - f_equal. lia.
      - intros j Hj. apply Hrows. lia.
      - unfold Int.min_signed. lia.
      - lia. }
    split; exact E.
  - intros k rest Hw Hk Hf.
    rewrite <- cycleCount_agree.
    assert (Hq : (k + inputWidth - 1) / inputWidth <= k).
    { apply Z.div_le_upper_bound; nia. }
    assert (E : FstSpmvArchitecture.cycleCount fuel (k :: rest) 1 inputWidth =
                Ok ((k + inputWidth - 1) / inputWidth)).
    { unfold FstSpmvArchitecture.cycleCount.
      change (Z.to_nat 1) with 1%nat. cbn [for_loop].
      unfold FstSpmvArchitecture.row_body, row_toread, read. simpl.
      unfold Int.sub. rewrite (checked_ok (k - 0))
        by (unfold Int.min_signed, Int.max_signed in *; lia).
      cbn [bind]. replace (k - 0) with k by lia.
      rewrite drain_positive; try assumption; try reflexivity.
      - unfold Int.min_signed. lia.
      - lia. }
    split; exact E.
Qed.

(** The theorem at a block of three empty rows and at a single row of nine
    entries, input width four. *)
Lemma simple_cycleCount_empty_and_single_witness :
  (SimpleSpmvArchitecture.cycleCount 3 [0; 0; 0] 3 4 = Ok 3 /\
   FstSpmvArchitecture.cycleCount 3 [0; 0; 0] 3 4 = Ok 3) /\
  (SimpleSpmvArchitecture.cycleCount 3 [9] 1 4 = Ok 3 /\
   FstSpmvArchitecture.cycleCount 3 [9] 1 4 = Ok 3).
Proof.
  split.
  - apply (proj1 (simple_cycleCount_empty_and_single 3 4) [0; 0; 0] 3).
    + lia.
    + lia.
    + unfold Int.max_signed. lia.
    + intros j Hj.
      assert (j = 0 \/ j = 1 \/ j = 2) as [-> | [-> | ->]] by lia; reflexivity.
  - apply (proj2 (simple_cycleCount_empty_and_single 3 4) 9 []).
    + lia.
    + unfold Int.max_signed. lia.
    + vm_compute. lia.
Defined.

(* ------------------------------------------------------------------ *)
(** ** The SkipEmptyRows policy *)

Section SkipEmptyRowsPolicy.

Import SkipEmptyRowsArchitecture.

Variable inputWidth : Z.
Hypothesis inputWidth_pos : 0 < inputWidth.
Hypothesis inputWidth_int : inputWidth <= Int.max_signed.

(** The lane cursor stays in [0 .. inputWidth - 1] while rows of
    non-negative length are drained, and the cycle counter does not
    decrease. *)
Lemma skip_drain_cursor (fuel : nat) :
  forall cyc pos toread s',
    0 <= pos < inputWidth -> 0 <= toread ->
    do_while (drain_body inputWidth) drain_cond fuel (cyc, pos, toread) = Ok s' ->
    0 <= snd (fst s') < inputWidth /\ cyc <= fst (fst s').
Proof.
  induction fuel as [|fuel IH]; intros cyc pos toread s' Hpos Ht H.
  - discriminate.
  - cbn [do_while] in H. apply bind_Ok_inv in H as (s1 & Hbody & H).
    unfold drain_body in Hbody.
    apply bind_Ok_inv in Hbody as (room & Hroom & Hbody).
    apply bind_Ok_inv in Hbody as (pos1 & Hpos1 & Hbody).
    apply bind_Ok_inv in Hbody as (pos2 & Hpos2 & Hbody).
    apply bind_Ok_inv in Hbody as (cyc1 & Hcyc1 & Hbody).
    apply bind_Ok_inv in Hbody as (t1 & Ht1 & Hbody).
    inversion Hbody; subst s1; clear Hbody.
    apply checked_inv in Hroom as [-> _].
    apply checked_inv in Hpos1 as [-> _].
    apply checked_inv in Hcyc1 as [-> _].
    apply checked_inv in Ht1 as [-> _].
    unfold Int.rem in Hpos2.
    destruct (inputWidth =? 0); [discriminate|].
    destruct (_ && _); [discriminate|].
    inversion Hpos2; subst pos2; clear Hpos2.
    assert (Hrem : 0 <= Z.rem (pos + Z.min (inputWidth - pos) toread) inputWidth < inputWidth)
      by (apply Z.rem_bound_pos; lia).
    unfold drain_cond in H. cbn [snd fst] in H.
    destruct (_ >? 0) eqn:G.
    + apply IH in H; [| exact Hrem | lia]. destruct H as [H1 H2].
      split; [exact H1 | lia].
    + inversion H; subst s'. cbn [snd fst]. split; [exact Hrem | lia].
Qed.

(** An empty row that is not skipped: two cycles, cursor unchanged. *)
Lemma skip_drain_empty (fuel : nat) (cyc pos : Z) :
  (0 < fuel)%nat -> 0 <= pos < inputWidth ->
  Int.min_signed <= cyc -> cyc + 1 <= Int.max_signed ->
  do_while (drain_body inputWidth) drain_cond fuel (cyc, pos, 0) = Ok (cyc + 1, pos, 0).
Proof.
  intros Hf Hpos Hlo Hhi. destruct fuel as [|fuel]; [lia|].
  cbn [do_while]. unfold drain_body, Int.sub, Int.add.
  rewrite (checked_ok (inputWidth - pos))
    by (unfold Int.min_signed, Int.max_signed in *; lia).
  cbn [bind]. rewrite Z.min_r by lia.
  rewrite (checked_ok (pos + 0))
    by (unfold Int.min_signed, Int.max_signed in *; lia).
  cbn [bind]. unfold Int.rem.
  destruct (inputWidth =? 0) eqn:E0; [lia|].
  replace (pos + 0 =? Int.min_signed) with false
    by (symmetry; apply Z.eqb_neq; unfold Int.min_signed; lia).
  cbn [andb bind]. rewrite (checked_ok (cyc + 1)) by lia. cbn [bind].
  rewrite (checked_ok (0 - 0)) by (unfold Int.min_signed, Int.max_signed; lia).
  cbn [bind]. unfold drain_cond. cbn [snd].
  replace (pos + 0) with pos by lia. rewrite Z.rem_small by lia.
  reflexivity.
Qed.

Variable fuel : nat.
Variable v : list Z.

(** One row keeps the cursor in range, and leaves the row's length in
    [prevtoread]. *)
Lemma skip_row_invariant (i toread : Z) (st st' : loop_state) :
  row_toread v i = Ok toread -> 0 <= toread ->
  0 <= crtPos st < inputWidth ->
  row_body fuel v inputWidth i st = Ok st' ->
  0 <= crtPos st' < inputWidth /\ prevtoread st' = toread /\ cycles st <= cycles st'.
Proof.
  intros Hrow Ht Hst H. unfold row_body in H. rewrite Hrow in H. cbn [bind] in H.
  destruct ((toread =? 0) && (prevtoread st =? 0)) eqn:Skip.
  - inversion H; subst st'. apply andb_true_iff in Skip as [E1 E2].
    split; [exact Hst | split; lia].
  - apply bind_Ok_inv in H as (cycles1 & Hc1 & H).
    apply bind_Ok_inv in H as (s & Hs & H).
    inversion H; subst st'; clear H. cbn [crtPos prevtoread cycles].
    apply skip_drain_cursor in Hs; [| exact Hst | exact Ht].
    destruct Hs as [Hs1 Hs2].
    split; [exact Hs1 | split; [reflexivity|]].
    destruct (toread =? 0).
    + apply checked_inv in Hc1 as [-> _]. lia.
    + inversion Hc1; subst. exact Hs2.
Qed.

(** After [k] rows of non-negative length. *)
Lemma skip_run_invariant :
  forall (k : nat) (st : loop_state),
    (forall j, 0 <= j < Z.of_nat k -> exists t, row_toread v j = Ok t /\ 0 <= t) ->
    for_loop (row_body fuel v inputWidth) k 0 init = Ok st ->
    0 <= crtPos st < inputWidth /\ 0 <= cycles st /\
    (k = 0%nat -> prevtoread st = -1) /\
    (forall t, (0 < k)%nat -> row_toread v (Z.of_nat k - 1) = Ok t -> prevtoread st = t).
Proof.
  intros k. induction k as [|k IH]; intros st Hrows H.
  - inversion H; subst st. unfold init. cbn [crtPos prevtoread cycles].
    repeat split; try lia.
  - rewrite for_loop_snoc in H. apply bind_Ok_inv in H as (st0 & Hrun & Hrow).
    destruct (IH st0) as (Hc & Hcy & _); [intros j Hj; apply Hrows; lia | exact Hrun |].
    destruct (Hrows (Z.of_nat k)) as (t & Ht & Hnn); [lia|].
    cbn [Z.add] in Hrow.
    destruct (skip_row_invariant _ _ _ _ Ht Hnn Hc Hrow) as (Hc' & Hp & Hmono).
    split; [exact Hc'|]. split; [lia|]. split; [lia|].
    intros t' _ Ht'.
    replace (Z.of_nat (Datatypes.S k) - 1) with (Z.of_nat k) in Ht' by lia.
    congruence.
Qed.

(** What the row after a prefix of [i] rows costs when it is empty. *)
Lemma skip_empty_row_step (i c : Z) :
  (0 < fuel)%nat -> 0 <= i ->
  (forall j, 0 <= j < i -> exists t, row_toread v j = Ok t /\ 0 <= t) ->
  row_toread v i = Ok 0 ->
  cycleCount fuel v i inputWidth = Ok c ->
  (i = 0 \/ row_toread v (i - 1) <> Ok 0 -> c + 2 <= Int.max_signed ->
   cycleCount fuel v (i + 1) inputWidth = Ok (c + 2)) /\
  (0 < i -> row_toread v (i - 1) = Ok 0 ->
   cycleCount fuel v (i + 1) inputWidth = Ok c).
Proof.
  intros Hf Hi Hrows Hrow H.
  unfold cycleCount, run in *.
  apply bind_Ok_inv in H as (st & Hrun & Hc). inversion Hc; subst c; clear Hc.
  replace (Z.to_nat (i + 1)) with (Datatypes.S (Z.to_nat i)) by lia.
  rewrite for_loop_snoc, Hrun. cbn [bind].
  replace (0 + Z.of_nat (Z.to_nat i)) with i by lia.
  destruct (skip_run_invariant (Z.to_nat i) st) as (Hcur & Hcyc & Hfirst & Hprev);
    [intros j Hj; apply Hrows; lia | exact Hrun |].
  unfold row_body. rewrite Hrow. cbn [bind].
  replace (0 =? 0) with true by reflexivity. cbn [andb].
  split.
  - intros Hnew Hhi.
    assert (Hp : prevtoread st <> 0).
    { destruct Hnew as [-> | Hne].
      - rewrite Hfirst by reflexivity. lia.
      - destruct (Z.eq_dec i 0) as [-> | Hnz];
          [rewrite Hfirst by reflexivity; lia|].
        destruct (Hrows (i - 1)) as (t & Ht & _); [lia|].
        rewrite (Hprev t); [congruence | lia |].
        replace (Z.of_nat (Z.to_nat i) - 1) with (i - 1) by lia. exact Ht. }
    replace (prevtoread st =? 0) with false by (symmetry; apply Z.eqb_neq; exact Hp).
    unfold Int.add at 1.
    rewrite (checked_ok (cycles st + 1)) by (unfold Int.min_signed; lia).
    cbn [bind].
    rewrite skip_drain_empty; try assumption; try (unfold Int.min_signed; lia).
    cbn [bind fst snd cycles]. f_equal. lia.
  - intros Hpos Hpe.
    rewrite (Hprev 0); [| lia |].
    + reflexivity.
    + replace (Z.of_nat (Z.to_nat i) - 1) with (i - 1) by lia. exact Hpe.
Qed.

End SkipEmptyRowsPolicy.

(** C1, amended. Under the SkipEmptyRows policy, at a positive input width
    and on row deltas that do not decrease: an empty row that is the first
    row, or whose predecessor is not empty, is charged exactly two cycles;
    an empty row whose predecessor is empty is charged none; so two
    consecutive empty rows that start a run of empty rows are charged two
    cycles in total.  The charge of row [i] is the difference between the
    counts of the first [i + 1] and of the first [i] rows. *)
Theorem skip_empty_rows_charge (fuel : nat) (v : list Z) (inputWidth i c : Z) :
  (0 < fuel)%nat -> 0 < inputWidth <= Int.max_signed -> 0 <= i ->
  (forall j, 0 <= j < i -> exists t, row_toread v j = Ok t /\ 0 <= t) ->
  row_toread v i = Ok 0 ->
  SkipEmptyRowsArchitecture.cycleCount fuel v i inputWidth = Ok c ->
  (i = 0 \/ row_toread v (i - 1) <> Ok 0 -> c + 2 <= Int.max_signed ->
   SkipEmptyRowsArchitecture.cycleCount fuel v (i + 1) inputWidth = Ok (c + 2)) /\
  (0 < i -> row_toread v (i - 1) = Ok 0 ->
   SkipEmptyRowsArchitecture.cycleCount fuel v (i + 1) inputWidth = Ok c) /\
  (i = 0 \/ row_toread v (i - 1) <> Ok 0 -> c + 2 <= Int.max_signed ->
   row_toread v (i + 1) = Ok 0 ->
   SkipEmptyRowsArchitecture.cycleCount fuel v (i + 2) inputWidth = Ok (c + 2)).
Proof.
  intros Hf [Hw Hwi] Hi Hrows Hrow H.
  destruct (skip_empty_row_step _ Hw Hwi fuel v _ _ Hf Hi Hrows Hrow H) as [Hnew Hrep].
  split; [exact Hnew|]. split; [exact Hrep|].
  intros Hfirst Hhi Hnext.
  specialize (Hnew Hfirst Hhi).
  assert (Hrows' : forall j, 0 <= j < i + 1 ->
                             exists t, row_toread v j = Ok t /\ 0 <= t).
  { intros j Hj. destruct (Z.eq_dec j i) as [-> | Hne].
    - exists 0. split; [exact Hrow | lia].
    - apply Hrows. lia. }
  assert (Hi' : 0 <= i + 1) by lia.
  destruct (skip_empty_row_step _ Hw Hwi fuel v _ _ Hf Hi' Hrows' Hnext Hnew) as [_ Hrep'].
  replace (i + 2) with (i + 1 + 1) by lia.
  apply Hrep'; [lia|].
  replace (i + 1 - 1) with i by lia. exact Hrow.
Qed.

(** The theorem at the block [3; 3; 3; 5], input width four: row 1 is
    empty after a row of three entries, row 2 is empty after it. *)
Lemma skip_empty_rows_charge_witness :
  SkipEmptyRowsArchitecture.cycleCount 2 [3; 3; 3; 5] 1 4 = Ok 1 /\
  SkipEmptyRowsArchitecture.cycleCount 2 [3; 3; 3; 5] 2 4 = Ok 3 /\
  SkipEmptyRowsArchitecture.cycleCount 2 [3; 3; 3; 5] 3 4 = Ok 3.
Proof.
  assert (H1 : SkipEmptyRowsArchitecture.cycleCount 2 [3; 3; 3; 5] 1 4 = Ok 1)
    by reflexivity.
  split; [exact H1|].
  assert (Hrows : forall j, 0 <= j < 1 ->
                            exists t, row_toread [3; 3; 3; 5] j = Ok t /\ 0 <= t).
  { intros j Hj. assert (j = 0) as -> by lia. exists 3. split; [reflexivity | lia]. }
  assert (Hw : 0 < 4 <= Int.max_signed) by (unfold Int.max_signed; lia).
  assert (Hf : (0 < 2)%nat) by lia.
  assert (Hi : 0 <= 1) by lia.
  destruct (skip_empty_rows_charge 2 [3; 3; 3; 5] 4 1 1 Hf Hw Hi Hrows eq_refl H1)
    as (Hnew & _ & Hpair).
  split.
  - apply Hnew.
    + right. discriminate.
    + unfold Int.max_signed. lia.
  - apply Hpair.
    + right. discriminate.
    + unfold Int.max_signed. lia.
    + reflexivity.
Defined.

(** C1 as stated fails: on the block of two empty rows [0; 0], input width
    one, the first row is charged two cycles, not one, and the pair of
    empty rows is charged two cycles in total, not one. *)
Lemma skip_empty_rows_one_cycle_counterexample :
  row_toread [0; 0] 0 = Ok 0 /\ row_toread [0; 0] 1 = Ok 0 /\
  SkipEmptyRowsArchitecture.cycleCount 1 [0; 0] 0 1 = Ok 0 /\
  SkipEmptyRowsArchitecture.cycleCount 1 [0; 0] 1 1 = Ok 2 /\
  SkipEmptyRowsArchitecture.cycleCount 1 [0; 0] 2 1 = Ok 2 /\
  SkipEmptyRowsArchitecture.cycleCount 1 [0; 0] 1 1 <> Ok (0 + 1) /\
  SkipEmptyRowsArchitecture.cycleCount 1 [0; 0] 2 1 <> Ok (0 + 1).
Proof. repeat split; try reflexivity; discriminate. Qed.

(* ------------------------------------------------------------------ *)
(** ** Binary64 arithmetic *)

(** *** Digits and exact shifts *)

Lemma digits2_pos_size (p : positive) : digits2_pos p = Pos.size p.
Proof. induction p as [p IH|p IH|]; simpl; congruence. Qed.

Lemma Zdigits2_log2 (m : Z) : 0 < m -> Zdigits2 m = Z.log2 m + 1.
Proof.
  destruct m as [|p|p]; try lia. intros _.
  destruct p as [p|p|]; simpl; rewrite ?digits2_pos_size; lia.
Qed.

(** [m] has [d] binary digits. *)
Lemma Zdigits2_unique (m d : Z) :
  0 < d -> 2 ^ (d - 1) <= m < 2 ^ d -> Zdigits2 m = d.
Proof.
  intros Hd Hm.
  assert (0 < m) by (assert (0 < 2 ^ (d - 1)) by (apply Z.pow_pos_nonneg; lia); lia).
  rewrite Zdigits2_log2 by assumption.
  rewrite (Z.log2_unique m (d - 1)); try lia.
  replace (Z.succ (d - 1)) with d by lia. exact Hm.
Qed.

Lemma Zdigits2_bounds (m : Z) :
  0 < m -> 0 < Zdigits2 m /\ 2 ^ (Zdigits2 m - 1) <= m < 2 ^ Zdigits2 m.
Proof.
  intros Hm. rewrite Zdigits2_log2 by assumption.
  pose proof (Z.log2_nonneg m). pose proof (Z.log2_spec m Hm).
  replace (Z.log2 m + 1 - 1) with (Z.log2 m) by lia.
  replace (Z.log2 m + 1) with (Z.succ (Z.log2 m)) by lia. lia.
Qed.

Lemma iter_pos_iter {A : Type} (f : A -> A) (p : positive) :
  forall x, iter_pos f p x = Pos.iter f x p.
Proof.
  induction p as [p IH|p IH|]; intros x; simpl; rewrite ?IH; try reflexivity.
  rewrite <- !Pos.iter_swap. reflexivity.
Qed.

Lemma shr_1_even (m : Z) :
  0 < m -> m mod 2 = 0 ->
  shr_1 {| shr_m := m; shr_r := false; shr_s := false |} =
  {| shr_m := m / 2; shr_r := false; shr_s := false |}.
Proof.
  intros Hm He. destruct m as [|p|p]; try lia.
  destruct p as [p|p|].
  - rewrite Pos2Z.inj_xI in He. rewrite Z.add_comm, Z.mul_comm, Z.mod_add in He by lia.
    discriminate.
  - simpl. f_equal. rewrite Pos2Z.inj_xO. rewrite Z.mul_comm, Z.div_mul by lia. reflexivity.
  - discriminate.
Qed.

Lemma shr_exact (p : positive) :
  forall m, 0 < m -> m mod 2 ^ Zpos p = 0 ->
    iter_pos shr_1 p {| shr_m := m; shr_r := false; shr_s := false |} =
    {| shr_m := m / 2 ^ Zpos p; shr_r := false; shr_s := false |}.
Proof.
  intros m. rewrite iter_pos_iter. revert m.
  induction p as [|p IH] using Pos.peano_ind; intros m Hm Hd.
  - simpl. apply shr_1_even; assumption.
  - rewrite Pos.iter_succ_r.
    rewrite Pos2Z.inj_succ, Z.pow_succ_r in * by lia.
    assert (Hp : 0 < 2 ^ Zpos p) by (apply Z.pow_pos_nonneg; lia).
    apply Z.mod_divide in Hd; [|lia]. destruct Hd as [q Hq].
    assert (Hm2 : m mod 2 = 0).
    { subst m. replace (q * (2 * 2 ^ Z.pos p)) with ((q * 2 ^ Zpos p) * 2) by lia.
      apply Z.mod_mul. lia. }
    rewrite shr_1_even by assumption.
    assert (Hhalf : m / 2 = q * 2 ^ Zpos p).
    { subst m. replace (q * (2 * 2 ^ Z.pos p)) with ((q * 2 ^ Zpos p) * 2) by lia.
      apply Z.div_mul. lia. }
    rewrite IH.
    + f_equal. rewrite Hhalf. subst m.
      rewrite Z.div_mul by lia.
      replace (q * (2 * 2 ^ Z.pos p)) with (q * (2 * 2 ^ Zpos p)) by reflexivity.
      rewrite Z.div_mul by lia. reflexivity.
    + rewrite Hhalf. nia.
    + rewrite Hhalf. apply Z.mod_mul. lia.
Qed.

(** *** Rounding what needs no rounding *)

Lemma fexp_normal (e : Z) : -1021 <= e -> fexp 53 1024 e = e - 53.
Proof. intros H. unfold fexp, emin. lia. Qed.

(** A mantissa of exactly 53 digits is not shifted. *)
Lemma shr_fexp_53 (m e : Z) (l : location) :
  2 ^ 52 <= m < 2 ^ 53 -> -1074 <= e ->
  shr_fexp 53 1024 m e l = (shr_record_of_loc m l, e).
Proof.
  intros Hm He. unfold shr_fexp.
  rewrite (Zdigits2_unique m 53) by (simpl; lia).
  rewrite fexp_normal by lia.
  replace (53 + e - 53 - e) with 0 by lia. reflexivity.
Qed.

Lemma bra_53 (s : bool) (m e : Z) (l : location) :
  2 ^ 52 <= m -> round_nearest_even m l < 2 ^ 53 -> -1074 <= e <= 971 ->
  binary_round_aux 53 1024 s m e l =
  S754_finite s (Z.to_pos (round_nearest_even m l)) e.
Proof.
  intros Hlo Hhi He.
  assert (Hm : m <= round_nearest_even m l).
  { unfold round_nearest_even. destruct l as [|[| |]]; try lia. destruct (Z.even m); lia. }
  unfold binary_round_aux.
  rewrite shr_fexp_53 by lia.
  assert (Hloc : loc_of_shr_record (shr_record_of_loc m l) = l)
    by (destruct l as [|[| |]]; reflexivity).
  assert (Hsm : shr_m (shr_record_of_loc m l) = m)
    by (destruct l as [|[| |]]; reflexivity).
  rewrite Hloc, Hsm.
  rewrite shr_fexp_53 by lia.
  cbn [shr_record_of_loc shr_m].
  destruct (round_nearest_even m l) as [|p|p] eqn:E; try lia.
  replace (e <=? 1024 - 53) with true by (symmetry; apply Z.leb_le; lia).
  reflexivity.
Qed.

Lemma bra_exact (s : bool) (m e k : Z) :
  0 <= k -> 2 ^ (52 + k) <= m < 2 ^ (53 + k) -> m mod 2 ^ k = 0 ->
  -1074 <= e + k <= 971 ->
  binary_round_aux 53 1024 s m e loc_Exact =
  S754_finite s (Z.to_pos (m / 2 ^ k)) (e + k).
Proof.
  intros Hk Hm Hdiv He.
  assert (Hpk : 0 < 2 ^ k) by (apply Z.pow_pos_nonneg; lia).
  assert (Hq : 2 ^ 52 <= m / 2 ^ k < 2 ^ 53).
  { rewrite !Z.pow_add_r in Hm by lia.
    split.
    - apply Z.div_le_lower_bound; lia.
    - apply Z.div_lt_upper_bound; lia. }
  destruct (Z.eq_dec k 0) as [-> | Hk0].
  - rewrite Z.pow_0_r, Z.div_1_r in *. rewrite Z.add_0_r in *.
    rewrite bra_53; try reflexivity; simpl; lia.
  - unfold binary_round_aux at 1. unfold shr_fexp at 1.
    rewrite (Zdigits2_unique m (53 + k)); [| lia |].
    2:{ replace (53 + k - 1) with (52 + k) by lia. exact Hm. }
    rewrite fexp_normal by lia.
    replace (53 + k + e - 53 - e) with k by lia.
    destruct k as [|p|p]; try lia.
    cbn [shr shr_record_of_loc].
    rewrite shr_exact; [| | exact Hdiv].
    2:{ assert (0 < 2 ^ (52 + Zpos p)) by (apply Z.pow_pos_nonneg; lia). lia. }
    cbn [loc_of_shr_record shr_m round_nearest_even].
    rewrite shr_fexp_53 by lia.
    cbn [shr_record_of_loc shr_m].
    destruct (m / 2 ^ Zpos p) as [|q|q] eqn:E; try lia.
    replace (e + Zpos p <=? 1024 - 53) with true by (symmetry; apply Z.leb_le; lia).
    reflexivity.
Qed.

Lemma pos_iter_xO (p n : positive) : Zpos (Pos.iter xO p n) = Zpos p * 2 ^ Zpos n.
Proof.
  induction n as [|n IH] using Pos.peano_ind.
  - simpl. lia.
  - rewrite Pos.iter_succ, Pos2Z.inj_xO, IH, Pos2Z.inj_succ, Z.pow_succ_r by lia. lia.
Qed.

(** The conversion of a 53 bit integer shifts it to 53 digits. *)
Lemma binary_round_int (s : bool) (p : positive) :
  Zpos p < 2 ^ 53 ->
  binary_round 53 1024 s p 0 =
  S754_finite s (Z.to_pos (Zpos p * 2 ^ (53 - Zdigits2 (Zpos p)))) (Zdigits2 (Zpos p) - 53).
Proof.
  intros Hz. destruct (Zdigits2_bounds (Zpos p)) as [Hd Hb]; [lia|].
  assert (Hd53 : Zdigits2 (Zpos p) <= 53).
  { destruct (Z.le_gt_cases (Zdigits2 (Zpos p)) 53) as [H|H]; [exact H|].
    assert (2 ^ 53 <= 2 ^ (Zdigits2 (Zpos p) - 1)) by (apply Z.pow_le_mono_r; lia). lia. }
  unfold binary_round.
  change (Zpos (digits2_pos p)) with (Zdigits2 (Zpos p)).
  set (d := Zdigits2 (Zpos p)) in *.
  rewrite Z.add_0_r.
  rewrite fexp_normal by lia.
  unfold shl_align.
  assert (Hshift : 2 ^ 52 <= Zpos p * 2 ^ (53 - d) < 2 ^ 53).
  { assert (E52 : 2 ^ 52 = 2 ^ (d - 1) * 2 ^ (53 - d))
      by (rewrite <- Z.pow_add_r by lia; f_equal; lia).
    assert (E53 : 2 ^ 53 = 2 ^ d * 2 ^ (53 - d))
      by (rewrite <- Z.pow_add_r by lia; f_equal; lia).
    rewrite E52, E53.
    assert (0 < 2 ^ (53 - d)) by (apply Z.pow_pos_nonneg; lia). nia. }
  destruct (d - 53 - 0) as [|q|q] eqn:E; try lia.
  - replace (53 - d) with 0 in * by lia. rewrite Z.pow_0_r, Z.mul_1_r in *.
    rewrite bra_53; cbn [round_nearest_even]; try lia.
    f_equal. lia.
  - rewrite pos_iter_xO.
    replace (53 - d) with (Zpos q) in * by lia.
    rewrite bra_53; cbn [round_nearest_even]; try lia.
    reflexivity.
Qed.

(** The double that holds the integer [z], [0 < z < 2^53]: [z] shifted to 53
    digits. *)
Lemma of_int_pos (z : Z) :
  0 < z < 2 ^ 53 ->
  Double.of_int z =
  S754_finite false (Z.to_pos (z * 2 ^ (53 - Zdigits2 z))) (Zdigits2 z - 53).
Proof.
  intros Hz. destruct z as [|p|p]; try lia.
  unfold Double.of_int, binary_normalize, Double.prec, Double.emax.
  apply binary_round_int. lia.
Qed.

(** An [int] survives the conversion to [double] and back. *)
Lemma to_int_of_int (z : Z) :
  Int.min_signed <= z <= Int.max_signed -> Double.to_int (Double.of_int z) = Ok z.
Proof.
  intros Hz.
  assert (H53 : forall p, Zpos p <= 2147483648 -> Zpos p < 2 ^ 53)
    by (intros p Hp; change (2 ^ 53) with 9007199254740992; lia).
  assert (Hback : forall s p, Zpos p <= 2147483648 ->
            Double.to_int (binary_round 53 1024 s p 0) =
            Int.checked (cond_Zopp s (Zpos p))).
  { intros s p Hp. rewrite binary_round_int by auto.
    destruct (Zdigits2_bounds (Zpos p)) as [Hd Hb]; [lia|].
    set (d := Zdigits2 (Zpos p)) in *.
    assert (Hd53 : d <= 53).
    { destruct (Z.le_gt_cases d 53) as [H|H]; [exact H|].
      assert (2 ^ 53 <= 2 ^ (d - 1)) by (apply Z.pow_le_mono_r; lia).
      specialize (H53 p Hp). lia. }
    assert (Hpd : 0 < 2 ^ (53 - d)) by (apply Z.pow_pos_nonneg; lia).
    unfold Double.to_int. rewrite Z2Pos.id by lia.
    rewrite Z.shiftl_div_pow2 by lia.
    replace (- (d - 53)) with (53 - d) by lia.
    rewrite Z.div_mul by lia. reflexivity. }
  unfold Int.min_signed, Int.max_signed in Hz.
  destruct z as [|p|p].
  - reflexivity.
  - unfold Double.of_int, binary_normalize. unfold Double.prec, Double.emax.
    rewrite Hback by lia. apply checked_ok. unfold Int.min_signed, Int.max_signed.
    cbn [cond_Zopp]. lia.
  - unfold Double.of_int, binary_normalize. unfold Double.prec, Double.emax.
    rewrite Hback by lia. apply checked_ok. unfold Int.min_signed, Int.max_signed.
    cbn [cond_Zopp]. lia.
Qed.

(** A 53 digit mantissa followed by [k] zero bits rounds to itself. *)
Lemma bra_shifted (s : bool) (q e k : Z) :
  0 <= k -> 2 ^ 52 <= q < 2 ^ 53 -> -1074 <= e + k <= 971 ->
  binary_round_aux 53 1024 s (q * 2 ^ k) e loc_Exact =
  S754_finite s (Z.to_pos q) (e + k).
Proof.
  intros Hk Hq He.
  assert (Hpk : 0 < 2 ^ k) by (apply Z.pow_pos_nonneg; lia).
  rewrite (bra_exact s (q * 2 ^ k) e k); try assumption.
  - rewrite Z.div_mul by lia. reflexivity.
  - rewrite !Z.pow_add_r by lia. nia.
  - apply Z.mod_mul. lia.
Qed.

Lemma mul_lit_2 (s : bool) (m : positive) (e : Z) :
  2 ^ 52 <= Zpos m < 2 ^ 53 -> -1074 <= e + 1 <= 971 ->
  Double.mul (S754_finite s m e) Double.lit_2 = S754_finite s m (e + 1).
Proof.
  intros Hm He.
  change Double.lit_2 with (S754_finite false 4503599627370496 (-51)).
  unfold Double.mul, SFmul, Double.prec, Double.emax.
  rewrite Pos2Z.inj_mul. change (Zpos 4503599627370496) with (2 ^ 52).
  rewrite bra_shifted; try lia.
  rewrite Pos2Z.id. destruct s; f_equal; lia.
Qed.

Lemma div_lit_512 (s : bool) (m : positive) (e : Z) :
  2 ^ 52 <= Zpos m < 2 ^ 53 -> -1064 <= e <= 980 ->
  Double.div (S754_finite s m e) Double.lit_512 = S754_finite s m (e - 9).
Proof.
  intros Hm He.
  change Double.lit_512 with (S754_finite false 4503599627370496 (-43)).
  unfold Double.div, SFdiv, SFdiv_core_binary, Double.prec, Double.emax.
  rewrite (Zdigits2_unique (Zpos m) 53) by (simpl; lia).
  change (Zdigits2 (Zpos 4503599627370496)) with 53.
  rewrite fexp_normal by lia.
  replace (Z.min (53 + e - (53 + -43) - 53) (e - -43)) with (e - 10) by lia.
  replace (e - -43 - (e - 10)) with 53 by lia.
  cbv beta iota.
  rewrite Z.shiftl_mul_pow2 by lia.
  assert (Hqr : Z.div_eucl (Zpos m * 2 ^ 53) (Zpos 4503599627370496) = (Zpos m * 2, 0)).
  { pose proof (Z_div_mod (Zpos m * 2 ^ 53) (Zpos 4503599627370496) eq_refl) as H.
    destruct (Z.div_eucl (Zpos m * 2 ^ 53) (Zpos 4503599627370496)) as [q r].
    change (Zpos 4503599627370496) with (2 ^ 52) in *.
    change (2 ^ 53) with (2 ^ 52 * 2) in H.
    assert (0 < 2 ^ 52) by reflexivity.
    f_equal; nia. }
  rewrite Hqr. cbv beta iota.
  change (new_location (Zpos 4503599627370496) 0) with loc_Exact.
  change 2 with (2 ^ 1) at 1.
  rewrite bra_shifted; try lia.
  rewrite Pos2Z.id. destruct s; f_equal; lia.
Qed.

(** The product of two positive integers is exact when it fits 53 bits. *)
Lemma mul_of_int (a b : Z) :
  0 < a -> 0 < b -> a * b < 2 ^ 53 ->
  Double.mul (Double.of_int a) (Double.of_int b) = Double.of_int (a * b).
Proof.
  intros Ha Hb Hab.
  assert (HP : 0 < a * b) by nia.
  rewrite (of_int_pos a), (of_int_pos b), (of_int_pos (a * b)) by nia.
  destruct (Zdigits2_bounds a Ha) as [Hda Hba].
  destruct (Zdigits2_bounds b Hb) as [Hdb Hbb].
  destruct (Zdigits2_bounds (a * b) HP) as [Hdp Hbp].
  set (da := Zdigits2 a) in *. set (db := Zdigits2 b) in *.
  set (dp := Zdigits2 (a * b)) in *.
  assert (Hp53 : dp <= 53).
  { destruct (Z.le_gt_cases dp 53) as [H|H]; [exact H|].
    assert (2 ^ 53 <= 2 ^ (dp - 1)) by (apply Z.pow_le_mono_r; lia). lia. }
  assert (Hlow : da + db - 1 <= dp).
  { destruct (Z.le_gt_cases (da + db - 1) dp) as [H|H]; [exact H|].
    assert (2 ^ dp <= 2 ^ (da - 1 + (db - 1))) by (apply Z.pow_le_mono_r; lia).
    rewrite Z.pow_add_r in * by lia.
    assert (0 < 2 ^ (da - 1)) by (apply Z.pow_pos_nonneg; lia).
    assert (0 < 2 ^ (db - 1)) by (apply Z.pow_pos_nonneg; lia).
    nia. }
  assert (Hhigh : dp <= da + db).
  { destruct (Z.le_gt_cases dp (da + db)) as [H|H]; [exact H|].
    assert (2 ^ (da + db) <= 2 ^ (dp - 1)) by (apply Z.pow_le_mono_r; lia).
    rewrite Z.pow_add_r in * by lia.
    assert (0 < 2 ^ da) by (apply Z.pow_pos_nonneg; lia).
    assert (0 < 2 ^ db) by (apply Z.pow_pos_nonneg; lia).
    nia. }
  assert (0 < 2 ^ (53 - da)) by (apply Z.pow_pos_nonneg; lia).
  assert (0 < 2 ^ (53 - db)) by (apply Z.pow_pos_nonneg; lia).
  assert (0 < 2 ^ (53 - dp)) by (apply Z.pow_pos_nonneg; lia).
  unfold Double.mul, SFmul, Double.prec, Double.emax.
  rewrite Pos2Z.inj_mul, !Z2Pos.id by nia.
  set (k := 53 + dp - da - db).
  assert (Hsplit : a * 2 ^ (53 - da) * (b * 2 ^ (53 - db)) =
                   (a * b * 2 ^ (53 - dp)) * 2 ^ k).
  { replace (a * b * 2 ^ (53 - dp) * 2 ^ k) with (a * b * (2 ^ (53 - dp) * 2 ^ k)) by ring.
    rewrite <- Z.pow_add_r by (unfold k; lia).
    replace (53 - dp + k) with ((53 - da) + (53 - db)) by (unfold k; lia).
    rewrite Z.pow_add_r by lia. ring. }
  rewrite Hsplit.
  rewrite bra_shifted; try (unfold k; lia).
  - cbn [xorb]. f_equal. unfold k. lia.
  - assert (E52 : 2 ^ 52 = 2 ^ (dp - 1) * 2 ^ (53 - dp))
      by (rewrite <- Z.pow_add_r by lia; f_equal; lia).
    assert (E53 : 2 ^ 53 = 2 ^ dp * 2 ^ (53 - dp))
      by (rewrite <- Z.pow_add_r by lia; f_equal; lia).
    rewrite E52, E53. nia.
Qed.

Lemma to_int_finite_pos (m : positive) (e : Z) :
  Double.to_int (S754_finite false m e) = Int.checked (Z.shiftl (Zpos m) e).
Proof. reflexivity. Qed.

(** The expression of [getResourceUsage], on a valid configuration. *)
Lemma brams_value (c w : Z) :
  0 < c -> 0 < w -> c * w / 256 <= Int.max_signed ->
  Double.to_int
    (Double.mul (Double.div (Double.mul (Double.of_int c) (Double.of_int w))
                            Double.lit_512)
                Double.lit_2) = Ok (c * w / 256).
Proof.
  intros Hc Hw Hmax.
  assert (HP : 0 < c * w) by nia.
  assert (Hlt : c * w < 2 ^ 39).
  { unfold Int.max_signed in Hmax.
    pose proof (Z.mul_succ_div_gt (c * w) 256 eq_refl) as H. 
    change (2 ^ 39) with (256 * 2147483648). lia. }
  assert (H53 : c * w < 2 ^ 53) by (change (2 ^ 53) with (2 ^ 39 * 16384); lia).
  rewrite mul_of_int by assumption.
  rewrite of_int_pos by lia.
  destruct (Zdigits2_bounds (c * w) HP) as [Hd Hb].
  set (d := Zdigits2 (c * w)) in *.
  assert (Hd53 : d <= 39).
  { destruct (Z.le_gt_cases d 39) as [H|H]; [exact H|].
    assert (2 ^ 39 <= 2 ^ (d - 1)) by (apply Z.pow_le_mono_r; lia). lia. }
  assert (Hpd : 0 < 2 ^ (53 - d)) by (apply Z.pow_pos_nonneg; lia).
  assert (Hm : 2 ^ 52 <= c * w * 2 ^ (53 - d) < 2 ^ 53).
  { assert (E52 : 2 ^ 52 = 2 ^ (d - 1) * 2 ^ (53 - d))
      by (rewrite <- Z.pow_add_r by lia; f_equal; lia).
    assert (E53 : 2 ^ 53 = 2 ^ d * 2 ^ (53 - d))
      by (rewrite <- Z.pow_add_r by lia; f_equal; lia).
    rewrite E52, E53. nia. }
  rewrite div_lit_512 by (rewrite ?Z2Pos.id by lia; lia).
  rewrite mul_lit_2 by (rewrite ?Z2Pos.id by lia; lia).
  rewrite to_int_finite_pos, Z2Pos.id by lia.
  rewrite Z.shiftl_div_pow2 by lia.
  replace (- (d - 53 - 9 + 1)) with (8 + (53 - d)) by lia.
  rewrite Z.pow_add_r by lia.
  rewrite Z.div_mul_cancel_r by lia.
  change (2 ^ 8) with 256.
  apply checked_ok. unfold Int.min_signed.
  assert (0 <= c * w / 256) by (apply Z.div_pos; lia). lia.
Qed.

Lemma Qfloor_brams (c w : Z) :
  Qfloor (inject_Z c * inject_Z w / 512 * 2)%Q = c * w / 256.
Proof.
  unfold Qfloor. simpl.
  replace (c * w * 1 * 2) with ((c * w) * 2) by ring.
  change 512 with (256 * 2).
  apply Z.div_mul_cancel_r; lia.
Qed.

(** *** Rounding to nearest *)

Lemma round_nearest_even_spec (m r D : Z) (l : location) :
  loc_matches l r D ->
  m <= round_nearest_even m l <= m + 1 /\
  - D <= 2 * (round_nearest_even m l * D - (m * D + r)) <= D.
Proof.
  intros [Hr Hl]. unfold round_nearest_even.
  destruct l as [|[| |]]; try destruct (Z.even m); split; nia.
Qed.

Lemma new_location_even_matches (D r : Z) :
  0 <= r < D -> Z.even D = true -> loc_matches (new_location D r) r D.
Proof.
  intros Hr He. unfold new_location. rewrite He. unfold new_location_even.
  split; [exact Hr|].
  destruct (Z.eqb_spec r 0) as [E0|E0]; [exact E0|].
  destruct (2 * r ?= D) eqn:C; cbv iota.
  - apply Z.compare_eq in C. lia.
  - rewrite Z.compare_lt_iff in C. lia.
  - rewrite Z.compare_gt_iff in C. lia.
Qed.

(** Rounding a 53 digit mantissa, with the carry into a 54th digit. *)
Lemma bra_53_carry (s : bool) (m e : Z) (l : location) :
  2 ^ 52 <= m < 2 ^ 53 -> -1074 <= e <= 970 ->
  binary_round_aux 53 1024 s m e l =
  if round_nearest_even m l <? 2 ^ 53
  then S754_finite s (Z.to_pos (round_nearest_even m l)) e
  else S754_finite s 4503599627370496 (e + 1).
Proof.
  intros Hm He.
  destruct (round_nearest_even m l <? 2 ^ 53) eqn:C.
  - apply Z.ltb_lt in C. apply bra_53; lia.
  - apply Z.ltb_ge in C.
    assert (Hle : round_nearest_even m l <= m + 1).
    { unfold round_nearest_even. destruct l as [|[| |]]; try lia. destruct (Z.even m); lia. }
    assert (E : round_nearest_even m l = 2 ^ 53) by lia.
    unfold binary_round_aux.
    rewrite shr_fexp_53 by lia.
    assert (Hloc : loc_of_shr_record (shr_record_of_loc m l) = l)
      by (destruct l as [|[| |]]; reflexivity).
    assert (Hsm : shr_m (shr_record_of_loc m l) = m)
      by (destruct l as [|[| |]]; reflexivity).
    rewrite Hloc, Hsm, E.
    unfold shr_fexp. change (Zdigits2 (2 ^ 53)) with 54.
    rewrite fexp_normal by lia.
    replace (54 + e - 53 - e) with 1 by lia.
    cbn [shr shr_record_of_loc iter_pos].
    change (shr_1 {| shr_m := 2 ^ 53; shr_r := false; shr_s := false |})
      with {| shr_m := 4503599627370496; shr_r := false; shr_s := false |}.
    cbn [shr_m].
    replace (e + 1 <=? 1024 - 53) with true by (symmetry; apply Z.leb_le; lia).
    reflexivity.
Qed.

Lemma shr_1_m (m : Z) (l : location) :
  0 < m -> shr_m (shr_1 (shr_record_of_loc m l)) = m / 2.
Proof.
  intros Hm.
  destruct m as [|p|p]; try lia.
  assert (E : shr_m (shr_1 (shr_record_of_loc (Zpos p) l)) =
              match p with xH => 0 | xO q => Zpos q | xI q => Zpos q end).
  { destruct p; destruct l as [|[| |]]; reflexivity. }
  rewrite E. clear E.
  destruct p as [q|q|].
  - rewrite Pos2Z.inj_xI. apply Z.div_unique with (r := 1); lia.
  - rewrite Pos2Z.inj_xO. apply Z.div_unique with (r := 0); lia.
  - reflexivity.
Qed.

(** A 54 digit mantissa loses its last bit to the location. *)
Lemma bra_54 (s : bool) (m e : Z) (l : location) :
  2 ^ 53 <= m < 2 ^ 54 -> -1075 <= e ->
  binary_round_aux 53 1024 s m e l =
  binary_round_aux 53 1024 s (m / 2) (e + 1)
    (loc_of_shr_record (shr_1 (shr_record_of_loc m l))).
Proof.
  intros Hm He.
  assert (Hpos : 0 < m) by (assert (0 < 2 ^ 53) by reflexivity; lia).
  assert (Hhalf : 2 ^ 52 <= m / 2 < 2 ^ 53).
  { assert (E53 : 2 ^ 53 = 2 ^ 52 * 2) by reflexivity.
    assert (E54 : 2 ^ 54 = 2 ^ 53 * 2) by reflexivity.
    split.
    - apply Z.div_le_lower_bound; lia.
    - apply Z.div_lt_upper_bound; lia. }
  pose proof (shr_1_m m l Hpos) as Hsm.
  unfold binary_round_aux at 1. unfold shr_fexp at 1.
  rewrite (Zdigits2_unique m 54) by (simpl; lia).
  rewrite fexp_normal by lia.
  replace (54 + e - 53 - e) with 1 by lia.
  cbn [shr iter_pos]. rewrite Hsm.
  unfold binary_round_aux at 1.
  rewrite (shr_fexp_53 (m / 2)) by lia.
  set (l1 := loc_of_shr_record (shr_1 (shr_record_of_loc m l))).
  assert (Hloc : loc_of_shr_record (shr_record_of_loc (m / 2) l1) = l1)
    by (destruct l1 as [|[| |]]; reflexivity).
  assert (Hsm1 : shr_m (shr_record_of_loc (m / 2) l1) = m / 2)
    by (destruct l1 as [|[| |]]; reflexivity).
  rewrite Hloc, Hsm1. reflexivity.
Qed.

Lemma shr_1_matches (m r D : Z) (l : location) :
  0 < m -> loc_matches l r D ->
  loc_matches (loc_of_shr_record (shr_1 (shr_record_of_loc m l)))
              ((m - 2 * (m / 2)) * D + r) (2 * D).
Proof.
  intros Hm [Hr Hl].
  destruct m as [|p|p]; try lia.
  destruct p as [p|p|].
  - replace (Zpos p~1 - 2 * (Zpos p~1 / 2)) with 1.
    2:{ rewrite Pos2Z.inj_xI. rewrite <- (Z.div_unique (2 * Zpos p + 1) 2 (Zpos p) 1); lia. }
    destruct l as [|[| |]]; cbn [shr_record_of_loc shr_1 loc_of_shr_record orb];
      unfold loc_matches; lia.
  - replace (Zpos p~0 - 2 * (Zpos p~0 / 2)) with 0.
    2:{ rewrite Pos2Z.inj_xO. rewrite <- (Z.div_unique (2 * Zpos p) 2 (Zpos p) 0); lia. }
    destruct l as [|[| |]]; cbn [shr_record_of_loc shr_1 loc_of_shr_record orb];
      unfold loc_matches; lia.
  - change (1 - 2 * (1 / 2)) with 1.
    destruct l as [|[| |]]; cbn [shr_record_of_loc shr_1 loc_of_shr_record orb];
      unfold loc_matches; lia.
Qed.

(** Rounding [m + r / D], of 53 or 54 digits, to nearest: the result is a
    53 digit mantissa [M] at exponent [e + u], within half a unit in the last
    place. *)
Lemma bra_nearest (s : bool) (m e r D : Z) (l : location) :
  0 < D -> loc_matches l r D -> 2 ^ 52 <= m < 2 ^ 54 -> -1074 <= e <= 968 ->
  exists (M : positive) (u : Z),
    binary_round_aux 53 1024 s m e l = S754_finite s M (e + u) /\
    0 <= u <= 2 /\ 2 ^ 52 <= Zpos M < 2 ^ 53 /\
    - (2 ^ u * D) <= 2 * (Zpos M * 2 ^ u * D - (m * D + r)) <= 2 ^ u * D.
Proof.
  intros HD Hl Hm He.
  assert (P52 : 2 ^ 52 = 4503599627370496) by reflexivity.
  assert (P53 : 2 ^ 53 = 9007199254740992) by reflexivity.
  assert (P54 : 2 ^ 54 = 18014398509481984) by reflexivity.
  destruct (Z.lt_ge_cases m (2 ^ 53)) as [Hlt | Hge].
  - rewrite bra_53_carry by lia.
    destruct (round_nearest_even_spec m r D l Hl) as [Hrne Hval].
    destruct (round_nearest_even m l <? 2 ^ 53) eqn:C.
    + apply Z.ltb_lt in C.
      exists (Z.to_pos (round_nearest_even m l)), 0.
      rewrite Z.add_0_r, Z2Pos.id by lia.
      change (2 ^ 0) with 1.
      repeat split; try reflexivity; try lia.
    + apply Z.ltb_ge in C.
      exists 4503599627370496%positive, 1.
      change (2 ^ 1) with 2.
      assert (E : round_nearest_even m l = 9007199254740992) by lia.
      rewrite E in Hval.
      repeat split; try reflexivity; try lia.
  - rewrite bra_54 by lia.
    assert (Hpos : 0 < m) by lia.
    pose proof (shr_1_matches m r D l Hpos Hl) as Hl1.
    set (l1 := loc_of_shr_record (shr_1 (shr_record_of_loc m l))) in *.
    assert (Hhalf : 2 ^ 52 <= m / 2 < 2 ^ 53).
    { split.
      - apply Z.div_le_lower_bound; lia.
      - apply Z.div_lt_upper_bound; lia. }
    set (m1 := m / 2) in *.
    rewrite bra_53_carry by lia.
    destruct (round_nearest_even_spec m1 _ _ l1 Hl1) as [Hrne Hval].
    destruct (round_nearest_even m1 l1 <? 2 ^ 53) eqn:C.
    + apply Z.ltb_lt in C.
      exists (Z.to_pos (round_nearest_even m1 l1)), 1.
      rewrite Z2Pos.id by lia.
      change (2 ^ 1) with 2.
      repeat split; try reflexivity; try lia.
    + apply Z.ltb_ge in C.
      exists 4503599627370496%positive, 2.
      change (2 ^ 2) with 4.
      assert (E : round_nearest_even m1 l1 = 9007199254740992) by lia.
      rewrite E in Hval.
      replace (e + 1 + 1) with (e + 2) by lia.
      repeat split; try reflexivity; try lia.
Qed.

(** Dividing a positive [int] by [1E9] rounds the rational quotient to
    nearest: the result [M * 2^E] has a 53 digit mantissa and lies within
    half a unit in the last place of [z / 10^9]. *)
Lemma div_lit_1E9 (z : Z) :
  0 < z <= Int.max_signed ->
  exists (M : positive) (E : Z),
    Double.div (Double.of_int z) Double.lit_1E9 = S754_finite false M E /\
    2 ^ 52 <= Zpos M < 2 ^ 53 /\ E <= 0 /\
    - 1000000000 <= 2 * (Zpos M * 1000000000 - z * 2 ^ (- E)) <= 1000000000.
Proof.
  intros [Hz Hmax]. unfold Int.max_signed in Hmax.
  assert (P52 : 2 ^ 52 = 4503599627370496) by reflexivity.
  assert (P53 : 2 ^ 53 = 9007199254740992) by reflexivity.
  assert (P54 : 2 ^ 54 = 18014398509481984) by reflexivity.
  rewrite of_int_pos by lia.
  destruct (Zdigits2_bounds z Hz) as [Hd Hb].
  set (d := Zdigits2 z) in *.
  assert (Hd31 : d <= 31).
  { destruct (Z.le_gt_cases d 31) as [H|H]; [exact H|].
    assert (2 ^ 31 <= 2 ^ (d - 1)) by (apply Z.pow_le_mono_r; lia).
    change (2 ^ 31) with 2147483648 in *. lia. }
  assert (Hpd : 0 < 2 ^ (53 - d)) by (apply Z.pow_pos_nonneg; lia).
  assert (Hm1 : 2 ^ 52 <= z * 2 ^ (53 - d) < 2 ^ 53).
  { assert (E52 : 2 ^ 52 = 2 ^ (d - 1) * 2 ^ (53 - d))
      by (rewrite <- Z.pow_add_r by lia; f_equal; lia).
    assert (E53 : 2 ^ 53 = 2 ^ d * 2 ^ (53 - d))
      by (rewrite <- Z.pow_add_r by lia; f_equal; lia).
    rewrite E52, E53. nia. }
  set (m1 := z * 2 ^ (53 - d)) in *.
  change Double.lit_1E9 with (S754_finite false 8388608000000000 (-23)).
  unfold Double.div, SFdiv, SFdiv_core_binary, Double.prec, Double.emax.
  rewrite Z2Pos.id by lia.
  rewrite (Zdigits2_unique m1 53) by (simpl; lia).
  change (Zdigits2 (Zpos 8388608000000000)) with 53.
  rewrite fexp_normal by lia.
  replace (Z.min (53 + (d - 53) - (53 + -23) - 53) (d - 53 - -23)) with (d - 83) by lia.
  replace (d - 53 - -23 - (d - 83)) with 53 by lia.
  cbv beta iota.
  rewrite Z.shiftl_mul_pow2 by lia.
  pose proof (Z_div_mod (m1 * 2 ^ 53) (Zpos 8388608000000000) eq_refl) as Hqr.
  destruct (Z.div_eucl (m1 * 2 ^ 53) (Zpos 8388608000000000)) as [q r].
  destruct Hqr as [Hqr Hr].
  assert (Hq : 2 ^ 52 <= q < 2 ^ 54) by (rewrite P52, P53, P54 in *; nia).
  assert (Hloc : loc_matches (new_location (Zpos 8388608000000000) r) r
                             (Zpos 8388608000000000)).
  { apply new_location_even_matches; [exact Hr | reflexivity]. }
  destruct (bra_nearest (xorb false false) q (d - 83) r (Zpos 8388608000000000)
              (new_location (Zpos 8388608000000000) r))
    as (M & u & Hres & Hu & HM & Hval); try assumption; try lia.
  exists M, (d - 83 + u).
  split; [exact Hres|]. split; [exact HM|]. split; [lia|].
  assert (HK : 0 < 2 ^ u) by (apply Z.pow_pos_nonneg; lia).
  assert (Hsplit : m1 * 2 ^ 53 = z * 2 ^ (- (d - 83 + u)) * (2 ^ 23 * 2 ^ u)).
  { unfold m1.
    replace (z * 2 ^ (53 - d) * 2 ^ 53) with (z * (2 ^ (53 - d) * 2 ^ 53)) by ring.
    replace (z * 2 ^ (- (d - 83 + u)) * (2 ^ 23 * 2 ^ u))
      with (z * (2 ^ (- (d - 83 + u)) * (2 ^ 23 * 2 ^ u))) by ring.
    rewrite <- !Z.pow_add_r by lia. do 2 f_equal. lia. }
  set (A := z * 2 ^ (- (d - 83 + u))) in *.
  change (2 ^ 23) with 8388608 in Hsplit.
  assert (Hq2 : q * 8388608000000000 + r = A * (8388608 * 2 ^ u)) by lia.
  set (K := 2 ^ u) in *.
  replace (q * Zpos 8388608000000000 + r) with (A * (8388608 * K)) in Hval by lia.
  nia.
Qed.

(* ------------------------------------------------------------------ *)
(** ** Metric queries *)

Lemma max_element_from_spec {A : Type} (key : A -> Z) (l : list A) :
  forall largest,
    let res := max_element_from (fun x y => key x <? key y) largest l in
    In res (largest :: l) /\
    forall b, In b (largest :: l) -> key b <= key res.
Proof.
  induction l as [|x l IH]; intros largest; cbn [max_element_from].
  - split; [left; reflexivity|].
    intros b [<- | []]. lia.
  - specialize (IH (if key largest <? key x then x else largest)).
    cbv zeta in IH. destruct IH as [Hin Hmax].
    split.
    + destruct Hin as [E | Hin].
      * rewrite <- E. destruct (key largest <? key x); [right; left | left]; reflexivity.
      * right; right; exact Hin.
    + intros b Hb.
      assert (Hcur : key largest <= key (if key largest <? key x then x else largest) /\
                     key x <= key (if key largest <? key x then x else largest)).
      { destruct (Z.ltb_spec (key largest) (key x)); lia. }
      pose proof (Hmax _ (or_introl eq_refl)) as Hc.
      destruct Hb as [<- | [<- | Hb]]; try lia.
      apply Hmax. right; exact Hb.
Qed.

(** C3. When the recorded sequence of blocking results is not empty,
    [getEstimatedClockCycles] returns the [totalCycles] of one of them that
    no other exceeds, the maximum; the double returned holds that integer
    exactly. *)
Theorem getEstimatedClockCycles_max (a : Architecture) :
  partitions a <> [] ->
  exists res,
    In res (partitions a) /\
    (forall b, In b (partitions a) -> totalCycles b <= totalCycles res) /\
    getEstimatedClockCycles a = Ok (Double.of_int (totalCycles res)) /\
    (Int.min_signed <= totalCycles res <= Int.max_signed ->
     Double.to_int (Double.of_int (totalCycles res)) = Ok (totalCycles res)).
Proof.
  intros Hne. unfold getEstimatedClockCycles.
  destruct (partitions a) as [|x l]; [congruence|].
  cbn [max_element].
  destruct (max_element_from_spec totalCycles l x) as [Hin Hmax].
  exists (max_element_from (fun x y => totalCycles x <? totalCycles y) x l).
  split; [exact Hin|]. split; [exact Hmax|]. split; [reflexivity|].
  apply to_int_of_int.
Qed.

(** The theorem on three blocks of 7, 12 and 12 total cycles. *)
Lemma getEstimatedClockCycles_max_witness :
  exists res,
    In res [Build_BlockingResult 1 4 0 7 0 4 [] [];
            Build_BlockingResult 1 4 1 12 0 4 [] [];
            Build_BlockingResult 1 2 0 12 0 2 [] []] /\
    totalCycles res = 12.
Proof.
  destruct (getEstimatedClockCycles_max
              {| cacheSize := 2048; inputWidth := 48; numPipes := 3;
                 mat := empty_matrix;
                 partitions := [Build_BlockingResult 1 4 0 7 0 4 [] [];
                                Build_BlockingResult 1 4 1 12 0 4 [] [];
                                Build_BlockingResult 1 2 0 12 0 2 [] []] |})
    as (res & Hin & Hmax & _ & _).
  - discriminate.
  - exists res. split; [exact Hin|].
    cbn [partitions] in Hin, Hmax.
    pose proof (Hmax _ (or_intror (or_introl eq_refl))) as Hge. cbn in Hge.
    destruct Hin as [<- | [<- | [<- | []]]]; cbn in *; lia.
Defined.

(** C6 as stated fails: constructing with a cache size, an input width and
    a number of pipes of zero, or negative, raises no [InvalidConfiguration]
    and yields an architecture. *)
Lemma construct_non_positive_counterexample :
  construct 0 0 0 <> inl InvalidConfiguration /\
  construct (-1) (-8) (-2) =
    inr {| cacheSize := -1; inputWidth := -8; numPipes := -2;
           mat := empty_matrix; partitions := [] |}.
Proof. split; [discriminate | reflexivity]. Qed.

(** C6, amended. Constructing an architecture never fails: whatever the
    cache size, the input width and the number of pipes, positive or not,
    the constructor raises nothing and stores the three values as they are,
    without clamping them. *)
Theorem construct_stores_arguments (c w p : Z) :
  exists a,
    construct c w p = inr a /\
    cacheSize a = c /\ inputWidth a = w /\ numPipes a = p.
Proof. eexists. split; [reflexivity|]. repeat split. Qed.

(** C7. On a configuration of positive cache size and input width whose
    block count fits an [int], [getResourceUsage] returns as BRAM count the
    integer [floor (cacheSize * inputWidth / 512 * 2)], the floor of the
    exact rational value; for a cache size of 2048 and an input width of 48
    it is 384. *)
Theorem getResourceUsage_brams_floor :
  (forall a,
      0 < cacheSize a -> 0 < inputWidth a ->
      cacheSize a * inputWidth a / 256 <= Int.max_signed ->
      exists r,
        getResourceUsage a = Ok r /\
        brams r = Qfloor (inject_Z (cacheSize a) * inject_Z (inputWidth a) / 512 * 2)%Q) /\
  (forall p m parts,
      getResourceUsage {| cacheSize := 2048; inputWidth := 48; numPipes := p;
                          mat := m; partitions := parts |} =
      Ok {| luts := -1; ffs := -1; dsps := -1; brams := 384 |}).
Proof.
  split.
  - intros a Hc Hw Hfit. unfold getResourceUsage.
    rewrite brams_value by assumption. cbn [bind].
    eexists. split; [reflexivity|]. cbn [brams].
    symmetry. apply Qfloor_brams.
  - intros p m parts. reflexivity.
Qed.

(** The theorem at cache size 1 and input width 300: [floor (300 / 256)] is
    one block. *)
Lemma getResourceUsage_brams_floor_witness :
  exists r,
    getResourceUsage {| cacheSize := 1; inputWidth := 300; numPipes := 1;
                        mat := empty_matrix; partitions := [] |} = Ok r /\
    brams r = 1.
Proof.
  destruct (proj1 getResourceUsage_brams_floor
              {| cacheSize := 1; inputWidth := 300; numPipes := 1;
                 mat := empty_matrix; partitions := [] |})
    as (r & Hr & Hb).
  - cbn. lia.
  - cbn. lia.
  - vm_compute. discriminate.
  - exists r. split; [exact Hr|]. rewrite Hb. reflexivity.
Defined.

(** C10. [getResourceUsage] depends on the cache size and the input width
    alone: two architectures that agree on them, whatever their matrices,
    blocking results and numbers of pipes, get the same answer; whenever a
    usage is returned its LUT, FF and DSP counts are [-1]; and one is
    returned on every configuration of positive cache size and input width
    whose block count fits an [int]. *)
Theorem getResourceUsage_config_only :
  (forall a1 a2,
      cacheSize a1 = cacheSize a2 -> inputWidth a1 = inputWidth a2 ->
      getResourceUsage a1 = getResourceUsage a2) /\
  (forall a r,
      getResourceUsage a = Ok r -> luts r = -1 /\ ffs r = -1 /\ dsps r = -1) /\
  (forall a,
      0 < cacheSize a -> 0 < inputWidth a ->
      cacheSize a * inputWidth a / 256 <= Int.max_signed ->
      getResourceUsage a =
      Ok {| luts := -1; ffs := -1; dsps := -1;
            brams := cacheSize a * inputWidth a / 256 |}).
Proof.
  split; [|split].
  - intros a1 a2 Hc Hw. unfold getResourceUsage. rewrite Hc, Hw. reflexivity.
  - intros a r H. unfold getResourceUsage in H.
    apply bind_Ok_inv in H as (b & _ & H). inversion H; subst r.
    repeat split.
  - intros a Hc Hw Hfit. unfold getResourceUsage.
    rewrite brams_value by assumption. reflexivity.
Qed.

(** The theorem on a freshly constructed architecture and on one that holds
    a matrix and a blocking result, both of cache size 2048 and input width
    48. *)
Lemma getResourceUsage_config_only_witness :
  getResourceUsage {| cacheSize := 2048; inputWidth := 48; numPipes := 1;
                      mat := empty_matrix; partitions := [] |} =
  getResourceUsage {| cacheSize := 2048; inputWidth := 48; numPipes := 4;
                      mat := {| rowPtr := [0; 1]; colIdx := [0];
                                values := [Double.lit_2] |};
                      partitions := [Build_BlockingResult 1 1 0 1 0 1 [] []] |} /\
  luts {| luts := -1; ffs := -1; dsps := -1; brams := 384 |} = -1.
Proof.
  split.
  - apply (proj1 getResourceUsage_config_only); reflexivity.
  - apply (proj1 (proj2 getResourceUsage_config_only)
             {| cacheSize := 2048; inputWidth := 48; numPipes := 1;
                mat := empty_matrix; partitions := [] |}).
    reflexivity.
Defined.

(** C8. [getGFlopsCount] returns [2 * nnz / 1e9] as a double: positive zero
    for a matrix without entries, and otherwise the binary64 number
    [M * 2^E], of 53 digit mantissa, that lies within half a unit in the
    last place of the rational [2 * nnz / 10^9], which is the quotient
    rounded to nearest. *)
Theorem getGFlopsCount_nearest (a : Architecture) :
  2 * nonZeros (mat a) <= Int.max_signed ->
  (nonZeros (mat a) = 0 -> getGFlopsCount a = Ok (S754_zero false)) /\
  (0 < nonZeros (mat a) ->
   exists (M : positive) (E : Z),
     getGFlopsCount a = Ok (S754_finite false M E) /\
     2 ^ 52 <= Zpos M < 2 ^ 53 /\ E <= 0 /\
     - 1000000000 <=
       2 * (Zpos M * 1000000000 - 2 * nonZeros (mat a) * 2 ^ (- E)) <= 1000000000).
Proof.
  intros Hfit. unfold getGFlopsCount, Int.mul.
  assert (Hnn : 0 <= nonZeros (mat a)) by (unfold nonZeros; lia).
  rewrite checked_ok by (unfold Int.min_signed; lia). cbn [bind].
  split.
  - intros ->. reflexivity.
  - intros Hpos.
    destruct (div_lit_1E9 (2 * nonZeros (mat a))) as (M & E & Hres & HM & HE & Hval);
      [lia|].
    exists M, E. rewrite Hres. repeat split; try lia.
Qed.

(** The theorem on a matrix of three entries: the result is within half a
    unit in the last place of [6 / 10^9]. *)
Lemma getGFlopsCount_nearest_witness :
  exists (M : positive) (E : Z),
    getGFlopsCount {| cacheSize := 2048; inputWidth := 48; numPipes := 1;
                      mat := {| rowPtr := [0; 2; 3]; colIdx := [0; 1; 1];
                                values := [Double.lit_2; Double.lit_2; Double.lit_512] |};
                      partitions := [] |} = Ok (S754_finite false M E) /\
    - 1000000000 <= 2 * (Zpos M * 1000000000 - 6 * 2 ^ (- E)) <= 1000000000.
Proof.
  destruct (getGFlopsCount_nearest
              {| cacheSize := 2048; inputWidth := 48; numPipes := 1;
                 mat := {| rowPtr := [0; 2; 3]; colIdx := [0; 1; 1];
                           values := [Double.lit_2; Double.lit_2; Double.lit_512] |};
                 partitions := [] |}) as [_ H].
  - vm_compute. discriminate.
  - destruct H as (M & E & Hres & _ & _ & Hval).
    + reflexivity.
    + exists M, E. split; [exact Hres | exact Hval].
Defined.

(* ------------------------------------------------------------------ *)
(** ** The design-space enumerator *)

(** C4. From the default ranges, 505 successive calls of [doNext] return
    504 architectures, the 7 cache sizes varying fastest, then the 12 input
    widths, then the 6 numbers of pipes, and then the null pointer; after
    [restart] the same 505 calls return the same sequence. *)
Theorem default_space_enumeration (T : Type) (new_T : Z -> Z -> Z -> T) :
  let cacheSizes := [1024; 1536; 2048; 2560; 3072; 3584; 4096] in
  let inputWidths := [8; 16; 24; 32; 40; 48; 56; 64; 72; 80; 88; 96] in
  let numsPipes := [1; 2; 3; 4; 5; 6] in
  let expected :=
    flat_map (fun p =>
      flat_map (fun w =>
        map (fun c => new_T c w p) cacheSizes) inputWidths) numsPipes in
  let first_sweep := doNext_times new_T 505 default_space in
  let second_sweep := doNext_times new_T 505 (restart (snd first_sweep)) in
  length expected = 504%nat /\
  fst first_sweep = map Some expected ++ [None] /\
  fst second_sweep = fst first_sweep /\
  restart (snd first_sweep) = default_space.
Proof.
  cbv zeta. repeat split; vm_compute; reflexivity.
Qed.

(* ------------------------------------------------------------------ *)
(** ** More on the Fst policy *)

(** Every iteration of the drain loop counts one cycle. *)
Lemma fst_drain_counts (inputWidth : Z) (fuel : nat) :
  forall s s',
    do_while (FstSpmvArchitecture.drain_body inputWidth)
             FstSpmvArchitecture.drain_cond fuel s = Ok s' ->
    snd s + 1 <= snd s' <= Int.max_signed.
Proof.
  induction fuel as [|fuel IH]; intros s s' H; [discriminate|].
  cbn [do_while] in H. apply bind_Ok_inv in H as (s1 & Hbody & H).
  assert (Hs1 : snd s1 = snd s + 1 /\ snd s1 <= Int.max_signed).
  { destruct s as [t c]. unfold FstSpmvArchitecture.drain_body in Hbody.
    apply bind_Ok_inv in Hbody as (t' & _ & Hbody).
    apply bind_Ok_inv in Hbody as (c' & Hc & Hbody).
    inversion Hbody; subst s1. apply checked_inv in Hc as [-> Hc]. cbn [snd]. lia. }
  destruct (FstSpmvArchitecture.drain_cond s1).
  - apply IH in H. lia.
  - inversion H; subst s'. lia.
Qed.

Lemma fst_row_body_counts (fuel : nat) (v : list Z) (inputWidth i c c' : Z) :
  FstSpmvArchitecture.row_body fuel v inputWidth i c = Ok c' ->
  c + 1 <= c' <= Int.max_signed.
Proof.
  unfold FstSpmvArchitecture.row_body. intros H.
  apply bind_Ok_inv in H as (t & _ & H).
  apply bind_Ok_inv in H as (s & Hs & H). inversion H; subst c'.
  apply fst_drain_counts in Hs. exact Hs.
Qed.

Lemma fst_rows_count (fuel : nat) (v : list Z) (inputWidth : Z) :
  forall k i c c',
    for_loop (FstSpmvArchitecture.row_body fuel v inputWidth) k i c = Ok c' ->
    c + Z.of_nat k <= c'.
Proof.
  intros k. induction k as [|k IH]; intros i c c' H.
  - inversion H. lia.
  - cbn [for_loop] in H. apply bind_Ok_inv in H as (c1 & H1 & H).
    apply fst_row_body_counts in H1. apply IH in H. lia.
Qed.

(** What one row costs at a positive input width. *)
Lemma fst_drain_row (fuel : nat) (inputWidth toread cycles : Z) :
  0 < inputWidth -> 0 <= toread <= Int.max_signed ->
  Int.min_signed <= cycles ->
  cycles + Z.max 1 ((toread + inputWidth - 1) / inputWidth) <= Int.max_signed ->
  (Z.to_nat (Z.max 1 ((toread + inputWidth - 1) / inputWidth)) <= fuel)%nat ->
  do_while (FstSpmvArchitecture.drain_body inputWidth)
           FstSpmvArchitecture.drain_cond fuel (toread, cycles) =
  Ok (0, cycles + Z.max 1 ((toread + inputWidth - 1) / inputWidth)).
Proof.
  intros Hw Ht Hlo Hhi Hf.
  destruct (Z.eq_dec toread 0) as [-> | Hnz].
  - assert (E : (0 + inputWidth - 1) / inputWidth = 0)
      by (apply Z.div_small; lia).
    rewrite E in *. change (Z.max 1 0) with 1 in *.
    apply drain_empty; lia.
  - assert (Hq : 1 <= (toread + inputWidth - 1) / inputWidth)
      by (apply Z.div_le_lower_bound; lia).
    rewrite Z.max_r in * by lia.
    apply drain_positive; lia.
Qed.

Lemma row_toread_in_range (v : list Z) (i t : Z) :
  row_toread v i = Ok t -> Int.min_signed <= t <= Int.max_signed.
Proof.
  unfold row_toread. intros H.
  apply bind_Ok_inv in H as (x & _ & H).
  apply bind_Ok_inv in H as (y & _ & H).
  apply checked_inv in H as [-> H]. exact H.
Qed.

Lemma fst_cycleCount_snoc (fuel : nat) (v : list Z) (inputWidth i : Z) :
  0 <= i ->
  FstSpmvArchitecture.cycleCount fuel v (i + 1) inputWidth =
  (c <- FstSpmvArchitecture.cycleCount fuel v i inputWidth ;;
   FstSpmvArchitecture.row_body fuel v inputWidth i c).
Proof.
  intros Hi. unfold FstSpmvArchitecture.cycleCount.
  replace (Z.to_nat (i + 1)) with (Datatypes.S (Z.to_nat i)) by lia.
  rewrite for_loop_snoc.
  replace (0 + Z.of_nat (Z.to_nat i)) with i by lia. reflexivity.
Qed.

(** X1. Under the Fst policy, at a positive input width, a row of [t >= 0]
    entries is charged [max 1 (ceil (t / inputWidth))] cycles, whatever the
    rows before it: the count of the first [i + 1] rows is the count of the
    first [i] rows plus that charge. *)
Theorem fst_row_charge (fuel : nat) (v : list Z) (inputWidth i c t : Z) :
  0 < inputWidth -> 0 <= i ->
  row_toread v i = Ok t -> 0 <= t ->
  (Z.to_nat (Z.max 1 ((t + inputWidth - 1) / inputWidth)) <= fuel)%nat ->
  FstSpmvArchitecture.cycleCount fuel v i inputWidth = Ok c ->
  c + Z.max 1 ((t + inputWidth - 1) / inputWidth) <= Int.max_signed ->
  FstSpmvArchitecture.cycleCount fuel v (i + 1) inputWidth =
  Ok (c + Z.max 1 ((t + inputWidth - 1) / inputWidth)).
Proof.
  intros Hw Hi Hrow Ht Hf Hc Hfit.
  rewrite fst_cycleCount_snoc by assumption. rewrite Hc. cbn [bind].
  unfold FstSpmvArchitecture.row_body. rewrite Hrow. cbn [bind].
  pose proof (row_toread_in_range v i t Hrow) as Hr.
  assert (H0 : 0 <= c).
  { unfold FstSpmvArchitecture.cycleCount in Hc. apply fst_rows_count in Hc. lia. }
  rewrite fst_drain_row; try assumption; try lia.
  - reflexivity.
  - unfold Int.min_signed. lia.
Qed.

(** The theorem at the second row of [5; 12], input width four. *)
Lemma fst_row_charge_witness :
  FstSpmvArchitecture.cycleCount 3 [5; 12] (1 + 1) 4 = Ok (2 + Z.max 1 ((7 + 4 - 1) / 4)).
Proof.
  apply (fst_row_charge 3 [5; 12] 4 1 2 7); try lia; try reflexivity.
  - vm_compute. lia.
  - vm_compute. discriminate.
Defined.

(** X18. Under the Fst policy, for every array, size and input width, a
    count that is returned is not negative and not below [size]: no row is
    free, empty or not. *)
Theorem fst_cycleCount_at_least_size (fuel : nat) (v : list Z) (size inputWidth c : Z) :
  FstSpmvArchitecture.cycleCount fuel v size inputWidth = Ok c ->
  0 <= c /\ size <= c.
Proof.
  unfold FstSpmvArchitecture.cycleCount. intros H.
  apply fst_rows_count in H. lia.
Qed.

(** The theorem at a block with decreasing deltas. *)
Lemma fst_cycleCount_at_least_size_witness :
  FstSpmvArchitecture.cycleCount 2 [4; 1; 0] 3 8 = Ok 3 /\ 0 <= 3 /\ 3 <= 3.
Proof.
  split; [reflexivity|].
  apply (fst_cycleCount_at_least_size 2 [4; 1; 0] 3 8 3). reflexivity.
Defined.

Lemma row_toread_reads (v : list Z) (i t : Z) :
  row_toread v i = Ok t ->
  exists x y, read v i = Ok x /\
              (if i >? 0 then read v (i - 1) else Ok 0) = Ok y /\ t = x - y.
Proof.
  unfold row_toread. intros H.
  apply bind_Ok_inv in H as (x & Hx & H).
  apply bind_Ok_inv in H as (y & Hy & H).
  apply checked_inv in H as [-> _]. exists x, y. auto.
Qed.

Lemma ceil_times (a w : Z) : 0 < w -> 0 <= a -> a <= (a + w - 1) / w * w.
Proof.
  intros Hw Ha.
  pose proof (Z.div_mod (a + w - 1) w ltac:(lia)) as E.
  pose proof (Z.mod_pos_bound (a + w - 1) w Hw) as B. nia.
Qed.

Lemma ceil_le_floor_succ (a w : Z) : 0 < w -> (a + w - 1) / w <= a / w + 1.
Proof.
  intros Hw.
  replace (a / w + 1) with ((a + 1 * w) / w) by (rewrite Z.div_add by lia; reflexivity).
  apply Z.div_le_mono; lia.
Qed.

Lemma floor_add_le (a b w : Z) : 0 < w -> a / w + b / w <= (a + b) / w.
Proof.
  intros Hw.
  pose proof (Z.div_mod a w ltac:(lia)) as Ea.
  pose proof (Z.mod_pos_bound a w Hw) as Ba.
  pose proof (Z.div_mod b w ltac:(lia)) as Eb.
  pose proof (Z.mod_pos_bound b w Hw) as Bb.
  apply Z.div_le_lower_bound; [lia|]. nia.
Qed.

(** Bounds kept by the prefixes of a block of non-decreasing deltas. *)
Lemma fst_prefix_bounds (fuel : nat) (v : list Z) (inputWidth : Z) :
  0 < inputWidth ->
  forall (k : nat) (total : Z),
    (forall j, 0 <= j < Z.of_nat k -> exists t, row_toread v j = Ok t /\ 0 <= t) ->
    (if Z.of_nat k >? 0 then read v (Z.of_nat k - 1) else Ok 0) = Ok total ->
    (forall j t, 0 <= j < Z.of_nat k -> row_toread v j = Ok t ->
                 (Z.to_nat (Z.max 1 ((t + inputWidth - 1) / inputWidth)) <= fuel)%nat) ->
    Z.of_nat k + total / inputWidth <= Int.max_signed ->
    exists c,
      for_loop (FstSpmvArchitecture.row_body fuel v inputWidth) k 0 0 = Ok c /\
      0 <= total /\
      Z.of_nat k <= c /\ total <= c * inputWidth /\
      c <= Z.of_nat k + total / inputWidth.
Proof.
  intros Hw k. induction k as [|k IH]; intros total Hrows Hlast Hfuel Hfit.
  - cbn in Hlast. inversion Hlast; subst total. exists 0.
    split; [reflexivity|]. change (Z.of_nat 0) with 0.
    change (0 / inputWidth) with 0. lia.
  - destruct (Hrows (Z.of_nat k)) as (t & Ht & Hnn); [lia|].
    destruct (row_toread_reads v _ t Ht) as (x & y & Hx & Hy & Et).
    assert (Hxt : x = total).
    { replace (Z.of_nat (Datatypes.S k) >? 0) with true in Hlast
        by (symmetry; apply Z.gtb_lt; lia).
      replace (Z.of_nat (Datatypes.S k) - 1) with (Z.of_nat k) in Hlast by lia.
      congruence. }
    subst x.
    destruct (IH y) as (c & Hc & Hy0 & Hlo & Hmul & Hup).
    + intros j Hj. apply Hrows. lia.
    + exact Hy.
    + intros j t' Hj. apply Hfuel. lia.
    + assert (y / inputWidth <= total / inputWidth) by (apply Z.div_le_mono; lia). lia.
    + set (cost := Z.max 1 ((t + inputWidth - 1) / inputWidth)).
      assert (Hcost1 : 1 <= cost) by (unfold cost; lia).
      assert (Hcostw : t <= cost * inputWidth).
      { pose proof (ceil_times t inputWidth Hw Hnn). unfold cost. nia. }
      assert (Hcostu : cost <= 1 + t / inputWidth).
      { unfold cost. pose proof (ceil_le_floor_succ t inputWidth Hw).
        assert (0 <= t / inputWidth) by (apply Z.div_pos; lia). lia. }
      assert (Hsum : y / inputWidth + t / inputWidth <= total / inputWidth).
      { replace total with (y + t) by lia. apply floor_add_le. exact Hw. }
      exists (c + cost).
      split.
      * rewrite for_loop_snoc, Hc. cbn [bind Z.add].
        unfold FstSpmvArchitecture.row_body. rewrite Ht. cbn [bind].
        pose proof (row_toread_in_range v _ t Ht) as Hr.
        rewrite fst_drain_row; fold cost; try assumption; try reflexivity;
          try (unfold Int.min_signed; lia).
        apply (Hfuel (Z.of_nat k) t).
        { lia. }
        { exact Ht. }
      * repeat split; try lia; nia.
Qed.

(** Non-negative row lengths make the deltas non-negative and
    non-decreasing. *)
Lemma reads_nondecreasing (v : list Z) (size : Z) :
  (forall j, 0 <= j < size -> exists t, row_toread v j = Ok t /\ 0 <= t) ->
  forall k : nat,
    Z.of_nat k < size ->
    exists x,
      read v (Z.of_nat k) = Ok x /\ 0 <= x /\
      forall j y, 0 <= j <= Z.of_nat k -> read v j = Ok y -> 0 <= y <= x.
Proof.
  intros Hrows k. induction k as [|k IH]; intros Hk.
  - destruct (Hrows 0) as (t & Ht & Hnn); [lia|].
    destruct (row_toread_reads v 0 t Ht) as (x & y & Hx & Hy & Et).
    cbn in Hy. inversion Hy; subst y.
    exists x. change (Z.of_nat 0) with 0. split; [exact Hx|]. split; [lia|].
    intros j y Hj Hy'. assert (j = 0) by lia. subst j.
    assert (y = x) by congruence. lia.
  - destruct IH as (x & Hx & Hx0 & Hbelow); [lia|].
    destruct (Hrows (Z.of_nat (Datatypes.S k))) as (t & Ht & Hnn); [lia|].
    destruct (row_toread_reads v _ t Ht) as (x' & y & Hx' & Hy & Et).
    replace (Z.of_nat (Datatypes.S k) >? 0) with true in Hy
      by (symmetry; apply Z.gtb_lt; lia).
    replace (Z.of_nat (Datatypes.S k) - 1) with (Z.of_nat k) in Hy by lia.
    assert (y = x) by congruence. subst y.
    exists x'. split; [exact Hx'|]. split; [lia|].
    intros j y Hj Hy'.
    destruct (Z.eq_dec j (Z.of_nat (Datatypes.S k))) as [-> | Hne].
    + assert (y = x') by congruence. lia.
    + destruct (Hbelow j y) as [H1 H2]; [lia | exact Hy' | lia].
Qed.

Lemma row_length_le_last (v : list Z) (size total : Z) :
  (forall j, 0 <= j < size -> exists t, row_toread v j = Ok t /\ 0 <= t) ->
  read v (size - 1) = Ok total ->
  forall j t, 0 <= j < size -> row_toread v j = Ok t -> 0 <= t <= total.
Proof.
  intros Hrows Hlast j t Hj Ht.
  destruct (reads_nondecreasing v size Hrows (Z.to_nat (size - 1)))
    as (x & Hx & Hx0 & Hbelow); [lia|].
  replace (Z.of_nat (Z.to_nat (size - 1))) with (size - 1) in * by lia.
  assert (x = total) by congruence. subst x.
  destruct (Hrows j Hj) as (t' & Ht' & Hnn).
  assert (t' = t) by congruence. subst t'.
  destruct (row_toread_reads v j t Ht) as (a & b & Ha & Hb & Et).
  destruct (Hbelow j a) as [Ha0 Hat]; [lia | exact Ha |].
  assert (0 <= b).
  { destruct (j >? 0) eqn:G.
    - apply (Hbelow (j - 1) b); [lia | exact Hb].
    - inversion Hb. lia. }
  lia.
Qed.

(** X2. Under the Fst policy, at a positive input width, a block of
    [size > 0] rows of non-negative length holding [total] entries (its last
    delta) returns a count [c] with [size <= c], [total <= c * inputWidth]
    and [c <= size + total / inputWidth]: at least one cycle per row, enough
    cycles to stream every entry, and at most one padding cycle per row. *)
Theorem fst_cycleCount_bounds (fuel : nat) (v : list Z) (size inputWidth total : Z) :
  0 < inputWidth -> 0 < size ->
  (forall j, 0 <= j < size -> exists t, row_toread v j = Ok t /\ 0 <= t) ->
  read v (size - 1) = Ok total ->
  (Z.to_nat (Z.max 1 total) <= fuel)%nat ->
  size + total / inputWidth <= Int.max_signed ->
  exists c,
    FstSpmvArchitecture.cycleCount fuel v size inputWidth = Ok c /\
    size <= c /\ total <= c * inputWidth /\ c <= size + total / inputWidth.
Proof.
  intros Hw Hsize Hrows Hlast Hfuel Hfit.
  unfold FstSpmvArchitecture.cycleCount.
  destruct (fst_prefix_bounds fuel v inputWidth Hw (Z.to_nat size) total)
    as (c & Hc & _ & H1 & H2 & H3).
  - intros j Hj. apply Hrows. lia.
  - replace (Z.of_nat (Z.to_nat size)) with size by lia.
    replace (size >? 0) with true by (symmetry; apply Z.gtb_lt; lia). exact Hlast.
  - intros j t Hj Ht.
    destruct (row_length_le_last v size total Hrows Hlast j t) as [Ht0 Htt];
      [lia | exact Ht |].
    assert ((t + inputWidth - 1) / inputWidth <= t).
    { destruct (Z.eq_dec t 0) as [-> | Hnz].
      - rewrite Z.div_small; lia.
      - apply Z.div_le_upper_bound; nia. }
    lia.
  - lia.
  - exists c. split; [exact Hc|]. lia.
Qed.

(** The theorem at the block [5; 5; 12], input width four. *)
Lemma fst_cycleCount_bounds_witness :
  exists c,
    FstSpmvArchitecture.cycleCount 12 [5; 5; 12] 3 4 = Ok c /\
    3 <= c /\ 12 <= c * 4 /\ c <= 3 + 12 / 4.
Proof.
  apply (fst_cycleCount_bounds 12 [5; 5; 12] 3 4 12); try lia.
  - intros j Hj.
    assert (j = 0 \/ j = 1 \/ j = 2) as [-> | [-> | ->]] by lia;
      eexists; (split; [reflexivity | lia]).
  - reflexivity.
  - vm_compute. discriminate.
Defined.

(** A loop that returns has run the body of each of its iterations. *)
Lemma for_loop_Ok_body {S : Type} (body : Z -> S -> outcome S) :
  forall k i s s',
    for_loop body k i s = Ok s' ->
    forall j, i <= j < i + Z.of_nat k -> exists s1 s2, body j s1 = Ok s2.
Proof.
  intros k. induction k as [|k IH]; intros i s s' H j Hj; [lia|].
  cbn [for_loop] in H. apply bind_Ok_inv in H as (s1 & H1 & H).
  destruct (Z.eq_dec j i) as [-> | Hne].
  - exists s, s1. exact H1.
  - apply (IH (i + 1) s1 s' H). lia.
Qed.

(** At a non-positive width a row longer than the width is never drained. *)
Lemma fst_drain_never (inputWidth : Z) (fuel : nat) :
  inputWidth <= 0 ->
  forall toread cycles s',
    inputWidth < toread ->
    do_while (FstSpmvArchitecture.drain_body inputWidth)
             FstSpmvArchitecture.drain_cond fuel (toread, cycles) <> Ok s'.
Proof.
  intros Hw. induction fuel as [|fuel IH]; intros toread cycles s' Ht H;
    [discriminate|].
  cbn [do_while] in H. apply bind_Ok_inv in H as (s1 & Hbody & H).
  unfold FstSpmvArchitecture.drain_body in Hbody.
  apply bind_Ok_inv in Hbody as (t' & Ht' & Hbody).
  apply bind_Ok_inv in Hbody as (c' & _ & Hbody).
  inversion Hbody; subst s1; clear Hbody.
  apply checked_inv in Ht' as [-> _].
  rewrite Z.min_r in H by lia.
  unfold FstSpmvArchitecture.drain_cond in H. cbn [fst] in H.
  replace (toread - inputWidth >? 0) with true in H
    by (symmetry; apply Z.gtb_lt; lia).
  apply IH in H; [exact H | lia].
Qed.

(** X3. Under the Fst policy an input width that is zero or negative makes
    a block with a row longer than the width (any non-empty row; at a
    negative width also an empty one) never return a count: the drain loop
    of that row runs until the iteration budget or the [int] range is
    exhausted. *)
Theorem fst_nonpositive_width_never_returns
  (fuel : nat) (v : list Z) (size inputWidth j t c : Z) :
  inputWidth <= 0 -> 0 <= j < size ->
  row_toread v j = Ok t -> inputWidth < t ->
  FstSpmvArchitecture.cycleCount fuel v size inputWidth <> Ok c.
Proof.
  intros Hw Hj Hrow Ht H.
  unfold FstSpmvArchitecture.cycleCount in H.
  destruct (for_loop_Ok_body _ _ _ _ _ H j) as (c1 & c2 & Hbody); [lia|].
  unfold FstSpmvArchitecture.row_body in Hbody. rewrite Hrow in Hbody.
  cbn [bind] in Hbody. apply bind_Ok_inv in Hbody as (s & Hs & _).
  exact (fst_drain_never inputWidth fuel Hw t c1 s Ht Hs).
Qed.

Lemma fst_nonpositive_width_never_returns_witness :
  FstSpmvArchitecture.cycleCount 5 [0; 3] 2 0 <> Ok 2 /\
  FstSpmvArchitecture.cycleCount 5 [0] 1 (-4) <> Ok 1.
Proof.
  split.
  - apply (fst_nonpositive_width_never_returns 5 [0; 3] 2 0 1 3 2);
      [lia | lia | reflexivity | lia].
  - apply (fst_nonpositive_width_never_returns 5 [0] 1 (-4) 0 0 1);
      [lia | lia | reflexivity | lia].
Defined.

(** A drained row has cost its length divided by the width, rounded up,
    and one cycle when it is empty. *)
Lemma fst_drain_inv (inputWidth : Z) (fuel : nat) :
  0 < inputWidth ->
  forall toread cycles s',
    0 <= toread ->
    do_while (FstSpmvArchitecture.drain_body inputWidth)
             FstSpmvArchitecture.drain_cond fuel (toread, cycles) = Ok s' ->
    s' = (0, cycles + Z.max 1 ((toread + inputWidth - 1) / inputWidth)) /\
    (Z.to_nat (Z.max 1 ((toread + inputWidth - 1) / inputWidth)) <= fuel)%nat.
Proof.
  intros Hw. induction fuel as [|fuel IH]; intros toread cycles s' Ht H;
    [discriminate|].
  cbn [do_while] in H. apply bind_Ok_inv in H as (s1 & Hbody & H).
  unfold FstSpmvArchitecture.drain_body in Hbody.
  apply bind_Ok_inv in Hbody as (t' & Ht' & Hbody).
  apply bind_Ok_inv in Hbody as (c' & Hc' & Hbody).
  inversion Hbody; subst s1; clear Hbody.
  apply checked_inv in Ht' as [-> _]. apply checked_inv in Hc' as [-> _].
  unfold FstSpmvArchitecture.drain_cond in H. cbn [fst] in H.
  destruct (Z.le_gt_cases toread inputWidth) as [Hle | Hgt].
  - rewrite Z.min_l in H by lia.
    replace (toread - toread) with 0 in H by lia. cbn [Z.gtb Z.compare] in H.
    inversion H; subst s'.
    assert (E : Z.max 1 ((toread + inputWidth - 1) / inputWidth) = 1).
    { destruct (Z.eq_dec toread 0) as [-> | Hnz].
      - rewrite Z.div_small by lia. reflexivity.
      - assert ((toread + inputWidth - 1) / inputWidth = 1) as ->
          by (symmetry; apply Z.div_unique with (r := toread - 1); lia).
        reflexivity. }
    rewrite E. split; [f_equal; lia | lia].
  - rewrite Z.min_r in H by lia.
    replace (toread - inputWidth >? 0) with true in H
      by (symmetry; apply Z.gtb_lt; lia).
    apply IH in H; [|lia]. destruct H as [-> Hf].
    assert (Hstep : (toread + inputWidth - 1) / inputWidth =
                    (toread - inputWidth + inputWidth - 1) / inputWidth + 1).
    { replace (toread + inputWidth - 1)
        with ((toread - inputWidth + inputWidth - 1) + 1 * inputWidth) by lia.
      rewrite Z.div_add by lia. reflexivity. }
    assert (Hq' : 1 <= (toread - inputWidth + inputWidth - 1) / inputWidth)
      by (apply Z.div_le_lower_bound; lia).
    rewrite Hstep. rewrite !Z.max_r in * by lia.
    split; [f_equal; lia | lia].
Qed.

Lemma fst_row_body_inv (fuel : nat) (v : list Z) (inputWidth i t c c' : Z) :
  0 < inputWidth -> row_toread v i = Ok t -> 0 <= t ->
  FstSpmvArchitecture.row_body fuel v inputWidth i c = Ok c' ->
  c' = c + Z.max 1 ((t + inputWidth - 1) / inputWidth) /\
  (Z.to_nat (Z.max 1 ((t + inputWidth - 1) / inputWidth)) <= fuel)%nat.
Proof.
  intros Hw Hrow Ht H. unfold FstSpmvArchitecture.row_body in H.
  rewrite Hrow in H. cbn [bind] in H.
  apply bind_Ok_inv in H as (s & Hs & H). inversion H; subst c'.
  apply fst_drain_inv in Hs; try assumption. destruct Hs as [-> Hf].
  split; [reflexivity | exact Hf].
Qed.

Lemma ceil_antitone (t w w' : Z) :
  0 < w <= w' -> 0 <= t ->
  Z.max 1 ((t + w' - 1) / w') <= Z.max 1 ((t + w - 1) / w).
Proof.
  intros Hw Ht.
  destruct (Z.eq_dec t 0) as [-> | Hnz].
  - rewrite !Z.div_small by lia. lia.
  - assert (H1 : (t + w' - 1) / w' < (t + w - 1) / w + 1).
    { apply Z.div_lt_upper_bound; [lia|].
      pose proof (ceil_times t w ltac:(lia) Ht).
      assert (1 <= (t + w - 1) / w) by (apply Z.div_le_lower_bound; lia).
      nia. }
    lia.
Qed.

(** X4. Under the Fst policy a wider datapath is never slower: when a
    block of rows of non-negative length returns [c] cycles at width [w], it
    returns at most [c] cycles at every width [w' >= w], within the same
    iteration budget. *)
Theorem fst_wider_is_not_slower (fuel : nat) (v : list Z) (size w w' c : Z) :
  0 < w <= w' ->
  (forall j, 0 <= j < size -> exists t, row_toread v j = Ok t /\ 0 <= t) ->
  FstSpmvArchitecture.cycleCount fuel v size w = Ok c ->
  exists c',
    FstSpmvArchitecture.cycleCount fuel v size w' = Ok c' /\ c' <= c.
Proof.
  intros Hw Hrows. unfold FstSpmvArchitecture.cycleCount.
  assert (Hgen : forall k : nat, Z.of_nat k <= Z.max 0 size -> forall c1,
             for_loop (FstSpmvArchitecture.row_body fuel v w) k 0 0 = Ok c1 ->
             exists c2,
               for_loop (FstSpmvArchitecture.row_body fuel v w') k 0 0 = Ok c2 /\
               0 <= c2 <= c1).
  { intros k. induction k as [|k IH]; intros Hk c1 H.
    - inversion H; subst c1. exists 0. split; [reflexivity | lia].
    - rewrite for_loop_snoc in H. apply bind_Ok_inv in H as (c0 & H0 & Hrow).
      destruct (IH ltac:(lia) c0 H0) as (c0' & H0' & Hle).
      cbn [Z.add] in Hrow.
      destruct (Hrows (Z.of_nat k)) as (t & Ht & Hnn); [lia|].
      pose proof (fst_row_body_counts _ _ _ _ _ _ Hrow) as Hfit.
      destruct (fst_row_body_inv fuel v w (Z.of_nat k) t c0 c1 ltac:(lia) Ht Hnn Hrow)
        as [-> Hf].
      pose proof (ceil_antitone t w w' Hw Hnn) as Hanti.
      exists (c0' + Z.max 1 ((t + w' - 1) / w')).
      split; [|lia].
      rewrite for_loop_snoc, H0'. cbn [bind Z.add].
      unfold FstSpmvArchitecture.row_body. rewrite Ht. cbn [bind].
      pose proof (row_toread_in_range v _ t Ht) as Hr.
      rewrite fst_drain_row; try reflexivity; try lia.
      unfold Int.min_signed. lia. }
  intros H.
  destruct (Hgen (Z.to_nat size) ltac:(lia) c H) as (c' & Hc' & Hle).
  exists c'. split; [exact Hc' | lia].
Qed.

Lemma fst_wider_is_not_slower_witness :
  exists c',
    FstSpmvArchitecture.cycleCount 4 [5; 5; 12] 3 6 = Ok c' /\ c' <= 8.
Proof.
  apply (fst_wider_is_not_slower 4 [5; 5; 12] 3 2 6 8).
  - lia.
  - intros j Hj.
    assert (j = 0 \/ j = 1 \/ j = 2) as [-> | [-> | ->]] by lia;
      eexists; (split; [reflexivity | lia]).
  - reflexivity.
Defined.

(* ------------------------------------------------------------------ *)
(** ** More on the SkipEmptyRows policy *)

Section SkipEmptyRowsPacking.

Import SkipEmptyRowsArchitecture.

Variable inputWidth : Z.
Hypothesis inputWidth_pos : 0 < inputWidth.
Hypothesis inputWidth_int : inputWidth <= Int.max_signed.

Lemma packed_cost_step (pos toread : Z) :
  0 <= pos < inputWidth -> inputWidth - pos < toread ->
  (pos + toread + inputWidth - 1) / inputWidth =
  1 + (0 + (toread - (inputWidth - pos)) + inputWidth - 1) / inputWidth /\
  (pos + toread) mod inputWidth = (0 + (toread - (inputWidth - pos))) mod inputWidth.
Proof.
  intros Hpos Ht. split.
  - replace (pos + toread + inputWidth - 1)
      with ((0 + (toread - (inputWidth - pos)) + inputWidth - 1) + 1 * inputWidth) by lia.
    rewrite Z.div_add by lia. lia.
  - replace (pos + toread)
      with ((0 + (toread - (inputWidth - pos))) + 1 * inputWidth) by lia.
    rewrite Z.mod_add by lia. reflexivity.
Qed.

Lemma packed_cost_last (pos toread : Z) :
  0 <= pos < inputWidth -> 0 <= toread <= inputWidth - pos ->
  Z.max 1 ((pos + toread + inputWidth - 1) / inputWidth) = 1 /\
  Z.rem (pos + toread) inputWidth = (pos + toread) mod inputWidth.
Proof.
  intros Hpos Ht. split.
  - destruct (Z.eq_dec (pos + toread) 0) as [E | Hnz].
    + rewrite E. rewrite Z.div_small by lia. reflexivity.
    + assert ((pos + toread + inputWidth - 1) / inputWidth = 1) as ->
        by (symmetry; apply Z.div_unique with (r := pos + toread - 1); lia).
      reflexivity.
  - apply Z.rem_mod_nonneg; lia.
Qed.

(** What a drained row has cost, and where it leaves the cursor. *)
Lemma skip_drain_inv (fuel : nat) :
  forall cyc pos toread s',
    0 <= pos < inputWidth -> 0 <= toread ->
    do_while (drain_body inputWidth) drain_cond fuel (cyc, pos, toread) = Ok s' ->
    s' = (cyc + Z.max 1 ((pos + toread + inputWidth - 1) / inputWidth),
          (pos + toread) mod inputWidth, 0) /\
    (Z.to_nat (Z.max 1 ((pos + toread + inputWidth - 1) / inputWidth)) <= fuel)%nat.
Proof.
  induction fuel as [|fuel IH]; intros cyc pos toread s' Hpos Ht H; [discriminate|].
  cbn [do_while] in H. apply bind_Ok_inv in H as (s1 & Hbody & H).
  unfold drain_body in Hbody.
  apply bind_Ok_inv in Hbody as (room & Hroom & Hbody).
  apply bind_Ok_inv in Hbody as (pos1 & Hpos1 & Hbody).
  apply bind_Ok_inv in Hbody as (pos2 & Hpos2 & Hbody).
  apply bind_Ok_inv in Hbody as (cyc1 & Hcyc1 & Hbody).
  apply bind_Ok_inv in Hbody as (t1 & Ht1 & Hbody).
  inversion Hbody; subst s1; clear Hbody.
  apply checked_inv in Hroom as [-> _].
  apply checked_inv in Hpos1 as [-> _].
  apply checked_inv in Hcyc1 as [-> _].
  apply checked_inv in Ht1 as [-> _].
  unfold Int.rem in Hpos2.
  destruct (inputWidth =? 0); [discriminate|].
  destruct (_ && _); [discriminate|].
  inversion Hpos2; subst pos2; clear Hpos2.
  unfold drain_cond in H. cbn [snd fst] in H.
  destruct (Z.le_gt_cases toread (inputWidth - pos)) as [Hle | Hgt].
  - rewrite Z.min_r in H by lia.
    replace (toread - toread) with 0 in H by lia. cbn [Z.gtb Z.compare] in H.
    inversion H; subst s'.
    destruct (packed_cost_last pos toread Hpos ltac:(lia)) as [E1 E2].
    rewrite E1, E2. split; [reflexivity | lia].
  - rewrite Z.min_l in H by lia.
    replace (toread - (inputWidth - pos) >? 0) with true in H
      by (symmetry; apply Z.gtb_lt; lia).
    replace (pos + (inputWidth - pos)) with inputWidth in H by lia.
    rewrite Z.rem_same in H by lia.
    apply IH in H; [| lia | lia]. destruct H as [-> Hf].
    destruct (packed_cost_step pos toread Hpos Hgt) as [E1 E2].
    assert (1 <= (0 + (toread - (inputWidth - pos)) + inputWidth - 1) / inputWidth)
      by (apply Z.div_le_lower_bound; lia).
    rewrite E1, E2.
    rewrite (Z.max_r 1 (1 + _)) by lia.
    rewrite (Z.max_r 1) in Hf by lia. rewrite (Z.max_r 1) by lia.
    split; [f_equal; f_equal; lia | lia].
Qed.

Lemma skip_drain_body_value (cyc pos toread : Z) :
  0 <= pos < inputWidth -> 0 <= toread <= Int.max_signed ->
  Int.min_signed <= cyc -> cyc + 1 <= Int.max_signed ->
  drain_body inputWidth (cyc, pos, toread) =
  Ok (cyc + 1,
      Z.rem (pos + Z.min (inputWidth - pos) toread) inputWidth,
      toread - Z.min (inputWidth - pos) toread).
Proof.
  intros Hpos Ht Hlo Hhi. unfold drain_body, Int.sub, Int.add.
  rewrite (checked_ok (inputWidth - pos))
    by (unfold Int.min_signed, Int.max_signed in *; lia).
  cbn [bind].
  rewrite (checked_ok (pos + _))
    by (unfold Int.min_signed, Int.max_signed in *; lia).
  cbn [bind]. unfold Int.rem.
  replace (inputWidth =? 0) with false by (symmetry; apply Z.eqb_neq; lia).
  replace (pos + Z.min (inputWidth - pos) toread =? Int.min_signed) with false
    by (symmetry; apply Z.eqb_neq; unfold Int.min_signed; lia).
  cbn [andb bind]. rewrite (checked_ok (cyc + 1)) by lia. cbn [bind].
  rewrite (checked_ok (toread - _))
    by (unfold Int.min_signed, Int.max_signed in *; lia).
  reflexivity.
Qed.

(** The same, forwards: enough iterations and room in the counter. *)
Lemma skip_drain_row (fuel : nat) :
  forall cyc pos toread,
    0 <= pos < inputWidth -> 0 <= toread <= Int.max_signed ->
    Int.min_signed <= cyc ->
    cyc + Z.max 1 ((pos + toread + inputWidth - 1) / inputWidth) <= Int.max_signed ->
    (Z.to_nat (Z.max 1 ((pos + toread + inputWidth - 1) / inputWidth)) <= fuel)%nat ->
    do_while (drain_body inputWidth) drain_cond fuel (cyc, pos, toread) =
    Ok (cyc + Z.max 1 ((pos + toread + inputWidth - 1) / inputWidth),
        (pos + toread) mod inputWidth, 0).
Proof.
  induction fuel as [|fuel IH]; intros cyc pos toread Hpos Ht Hlo Hhi Hf; [lia|].
  cbn [do_while]. rewrite skip_drain_body_value by lia. cbn [bind].
  unfold drain_cond at 1. cbn [snd].
  destruct (Z.le_gt_cases toread (inputWidth - pos)) as [Hle | Hgt].
  - rewrite Z.min_r by lia.
    destruct (packed_cost_last pos toread Hpos ltac:(lia)) as [E1 E2].
    rewrite E1 in *.
    replace (toread - toread) with 0 by lia. cbn [Z.gtb Z.compare].
    rewrite E2. reflexivity.
  - rewrite Z.min_l by lia.
    destruct (packed_cost_step pos toread Hpos Hgt) as [E1 E2].
    assert (Hq1 : 1 <= (0 + (toread - (inputWidth - pos)) + inputWidth - 1) / inputWidth)
      by (apply Z.div_le_lower_bound; lia).
    rewrite E1, E2 in *. rewrite (Z.max_r 1 (1 + _)) in * by lia.
    replace (pos + (inputWidth - pos)) with inputWidth by lia.
    rewrite Z.rem_same by lia.
    replace (toread - (inputWidth - pos) >? 0) with true
      by (symmetry; apply Z.gtb_lt; lia).
    rewrite IH; rewrite ?Z.max_r by lia; try lia.
    f_equal. f_equal. f_equal. lia.
Qed.

End SkipEmptyRowsPacking.

(** After [k] rows the cursor is the number of entries read so far, modulo
    the width. *)
Lemma skip_run_cursor (fuel : nat) (v : list Z) (inputWidth : Z) :
  0 < inputWidth ->
  forall (k : nat) (st : SkipEmptyRowsArchitecture.loop_state) (total : Z),
    (forall j, 0 <= j < Z.of_nat k -> exists t, row_toread v j = Ok t /\ 0 <= t) ->
    (if Z.of_nat k >? 0 then read v (Z.of_nat k - 1) else Ok 0) = Ok total ->
    for_loop (SkipEmptyRowsArchitecture.row_body fuel v inputWidth) k 0
             SkipEmptyRowsArchitecture.init = Ok st ->
    SkipEmptyRowsArchitecture.crtPos st = total mod inputWidth.
Proof.
  intros Hw k. induction k as [|k IH]; intros st total Hrows Hlast H.
  - inversion H; subst st. cbn in Hlast. inversion Hlast; subst total.
    unfold SkipEmptyRowsArchitecture.init. cbn [SkipEmptyRowsArchitecture.crtPos].
    symmetry. apply Z.mod_0_l. lia.
  - rewrite for_loop_snoc in H. apply bind_Ok_inv in H as (st0 & Hrun & Hrow).
    cbn [Z.add] in Hrow.
    destruct (Hrows (Z.of_nat k)) as (t & Ht & Hnn); [lia|].
    destruct (row_toread_reads v _ t Ht) as (x & y & Hx & Hy & Et).
    replace (Z.of_nat (Datatypes.S k) >? 0) with true in Hlast
      by (symmetry; apply Z.gtb_lt; lia).
    replace (Z.of_nat (Datatypes.S k) - 1) with (Z.of_nat k) in Hlast by lia.
    assert (x = total) by congruence. subst x.
    assert (Hrows' : forall j, 0 <= j < Z.of_nat k ->
                               exists t, row_toread v j = Ok t /\ 0 <= t)
      by (intros j Hj; apply Hrows; lia).
    pose proof (IH st0 y Hrows' Hy Hrun) as Hpos.
    destruct (skip_run_invariant inputWidth Hw fuel v k st0 Hrows' Hrun)
      as (Hcur & _ & _ & _).
    unfold SkipEmptyRowsArchitecture.row_body in Hrow.
    rewrite Ht in Hrow. cbn [bind] in Hrow.
    destruct ((t =? 0) && _) eqn:Skip.
    + inversion Hrow; subst st.
      apply andb_true_iff in Skip as [E _]. apply Z.eqb_eq in E.
      rewrite Hpos. f_equal. lia.
    + apply bind_Ok_inv in Hrow as (c1 & _ & Hrow).
      apply bind_Ok_inv in Hrow as (s & Hs & Hrow).
      inversion Hrow; subst st; clear Hrow.
      apply skip_drain_inv in Hs; try assumption. destruct Hs as [-> _].
      cbn [SkipEmptyRowsArchitecture.crtPos fst snd].
      rewrite Hpos, Zplus_mod_idemp_l. f_equal. lia.
Qed.



Lemma packed_cost_closed (x y w : Z) :
  0 < w -> 0 <= y < x ->
  Z.max 1 ((y mod w + (x - y) + w - 1) / w) = (x + w - 1) / w - y / w /\
  (x - y + w - 1) / w <= (x + w - 1) / w - y / w <= (x - y + w - 1) / w + 1.
Proof.
  intros Hw Hxy.
  pose proof (Z.div_mod y w ltac:(lia)) as Ey.
  pose proof (Z.mod_pos_bound y w Hw) as By.
  assert (E : (y mod w + (x - y) + w - 1) / w = (x + w - 1) / w - y / w).
  { replace (y mod w + (x - y) + w - 1) with ((x + w - 1) + (- (y / w)) * w) by lia.
    rewrite Z.div_add by lia. lia. }
  assert (H1 : 1 <= (y mod w + (x - y) + w - 1) / w)
    by (apply Z.div_le_lower_bound; lia).
  split; [rewrite <- E; lia|].
  rewrite <- E. split.
  - apply Z.div_le_mono; lia.
  - replace ((x - y + w - 1) / w + 1) with ((x - y + w - 1 + 1 * w) / w)
      by (rewrite Z.div_add by lia; reflexivity).
    apply Z.div_le_mono; lia.
Qed.

(** X6. Under the SkipEmptyRows policy a non-empty row with deltas [y]
    before and [x] after it is charged [ceil (x / w) - floor (y / w)]
    cycles; that is never less than the [ceil ((x - y) / w)] of the Fst
    policy, and at most one cycle more. *)
Theorem skip_nonempty_row_charge
  (fuel : nat) (v : list Z) (inputWidth i c x y : Z) :
  0 < inputWidth <= Int.max_signed -> 0 <= i ->
  (forall j, 0 <= j < i -> exists t, row_toread v j = Ok t /\ 0 <= t) ->
  read v i = Ok x ->
  (if i >? 0 then read v (i - 1) else Ok 0) = Ok y ->
  y < x <= Int.max_signed ->
  (Z.to_nat ((x + inputWidth - 1) / inputWidth - y / inputWidth) <= fuel)%nat ->
  SkipEmptyRowsArchitecture.cycleCount fuel v i inputWidth = Ok c ->
  c + ((x + inputWidth - 1) / inputWidth - y / inputWidth) <= Int.max_signed ->
  SkipEmptyRowsArchitecture.cycleCount fuel v (i + 1) inputWidth =
    Ok (c + ((x + inputWidth - 1) / inputWidth - y / inputWidth)) /\
  (x - y + inputWidth - 1) / inputWidth
    <= (x + inputWidth - 1) / inputWidth - y / inputWidth
    <= (x - y + inputWidth - 1) / inputWidth + 1.
Proof.
  intros [Hw Hwi] Hi Hrows Hx Hy Hxy Hf H Hfit.
  assert (Hy0 : 0 <= y).
  { destruct (i >? 0) eqn:G; [|inversion Hy; lia].
    apply Z.gtb_lt in G.
    destruct (reads_nondecreasing v i Hrows (Z.to_nat (i - 1))) as (y' & Hy' & Hy0 & _);
      [lia|].
    replace (Z.of_nat (Z.to_nat (i - 1))) with (i - 1) in Hy' by lia.
    congruence. }
  destruct (packed_cost_closed x y inputWidth Hw ltac:(lia)) as [Ecost Hsand].
  split; [|exact Hsand].
  unfold SkipEmptyRowsArchitecture.cycleCount, SkipEmptyRowsArchitecture.run in *.
  apply bind_Ok_inv in H as (st & Hrun & Hc). inversion Hc; subst c; clear Hc.
  replace (Z.to_nat (i + 1)) with (Datatypes.S (Z.to_nat i)) by lia.
  rewrite for_loop_snoc, Hrun. cbn [bind].
  replace (0 + Z.of_nat (Z.to_nat i)) with i by lia.
  assert (Hrows' : forall j, 0 <= j < Z.of_nat (Z.to_nat i) ->
                             exists t, row_toread v j = Ok t /\ 0 <= t)
    by (intros j Hj; apply Hrows; lia).
  destruct (skip_run_invariant inputWidth Hw fuel v (Z.to_nat i) st Hrows' Hrun)
    as (Hcur & Hcyc & _ & _).
  assert (Hpos : SkipEmptyRowsArchitecture.crtPos st = y mod inputWidth).
  { apply (skip_run_cursor fuel v inputWidth Hw (Z.to_nat i) st y Hrows'); [|exact Hrun].
    replace (Z.of_nat (Z.to_nat i)) with i by lia. exact Hy. }
  assert (Hrow : row_toread v i = Ok (x - y)).
  { unfold row_toread. rewrite Hx. cbn [bind]. rewrite Hy. cbn [bind].
    apply checked_ok. unfold Int.min_signed, Int.max_signed in *. lia. }
  unfold SkipEmptyRowsArchitecture.row_body. rewrite Hrow. cbn [bind].
  replace (x - y =? 0) with false by (symmetry; apply Z.eqb_neq; lia).
  cbn [andb bind].
  rewrite (skip_drain_row inputWidth Hw Hwi); rewrite ?Hpos, ?Ecost;
    try (unfold Int.min_signed, Int.max_signed in *; lia).
  cbn [bind fst snd SkipEmptyRowsArchitecture.cycles]. reflexivity.
Qed.

Lemma skip_nonempty_row_charge_witness :
  SkipEmptyRowsArchitecture.cycleCount 3 [3; 5] 2 4 = Ok (1 + (2 - 0)).
Proof.
  apply (skip_nonempty_row_charge 3 [3; 5] 4 1 1 5 3).
  - unfold Int.max_signed. lia.
  - lia.
  - intros j Hj. assert (j = 0) as -> by lia. exists 3. split; [reflexivity | lia].
  - reflexivity.
  - reflexivity.
  - unfold Int.max_signed. lia.
  - vm_compute. lia.
  - reflexivity.
  - vm_compute. discriminate.
Defined.

(** X7. Under the SkipEmptyRows policy a block of [size > 0] rows that are
    all empty costs two cycles in total, however many rows it has. *)
Theorem skip_all_empty_block_costs_two
  (fuel : nat) (v : list Z) (inputWidth size : Z) :
  (0 < fuel)%nat -> 0 < inputWidth <= Int.max_signed -> 0 < size ->
  (forall j, 0 <= j < size -> row_toread v j = Ok 0) ->
  SkipEmptyRowsArchitecture.cycleCount fuel v size inputWidth = Ok 2.
Proof.
  intros Hf [Hw Hwi] Hsize Hrows.
  assert (Hgen : forall k : nat, Z.of_nat k < size ->
            SkipEmptyRowsArchitecture.cycleCount fuel v (Z.of_nat k + 1) inputWidth = Ok 2).
  { intros k. induction k as [|k IH]; intros Hk.
    - destruct (skip_empty_row_step inputWidth Hw Hwi fuel v 0 0 Hf) as [Hnew _];
        try lia; try reflexivity.
      + apply Hrows. lia.
      + apply Hnew; [left; reflexivity | unfold Int.max_signed; lia].
    - specialize (IH ltac:(lia)).
      replace (Z.of_nat (Datatypes.S k)) with (Z.of_nat k + 1) by lia.
      destruct (skip_empty_row_step inputWidth Hw Hwi fuel v (Z.of_nat k + 1) 2 Hf)
        as [_ Hrep]; try lia; try exact IH.
      + intros j Hj. exists 0. split; [apply Hrows; lia | lia].
      + apply Hrows. lia.
      + apply Hrep; [lia|].
        replace (Z.of_nat k + 1 - 1) with (Z.of_nat k) by lia. apply Hrows. lia. }
  specialize (Hgen (Z.to_nat (size - 1)) ltac:(lia)).
  replace (Z.of_nat (Z.to_nat (size - 1)) + 1) with size in Hgen by lia.
  exact Hgen.
Qed.

Lemma skip_all_empty_block_costs_two_witness :
  SkipEmptyRowsArchitecture.cycleCount 1 [0; 0; 0; 0; 0] 5 8 = Ok 2.
Proof.
  apply skip_all_empty_block_costs_two.
  - lia.
  - unfold Int.max_signed. lia.
  - lia.
  - intros j Hj.
    assert (j = 0 \/ j = 1 \/ j = 2 \/ j = 3 \/ j = 4)
      as [-> | [-> | [-> | [-> | ->]]]] by lia; reflexivity.
Defined.

(** X8. Under the SkipEmptyRows policy an input width of zero is undefined
    behaviour on every block with a first row: the row reaches
    [crtPos %= inputWidth], a remainder by zero. *)
Theorem skip_zero_width_is_undefined
  (fuel : nat) (v : list Z) (size t : Z) :
  (0 < fuel)%nat -> 0 < size -> row_toread v 0 = Ok t ->
  SkipEmptyRowsArchitecture.cycleCount fuel v size 0 = Undefined.
Proof.
  intros Hf Hsize Hrow.
  pose proof (row_toread_in_range v 0 t Hrow) as Hr.
  unfold SkipEmptyRowsArchitecture.cycleCount, SkipEmptyRowsArchitecture.run.
  destruct (Z.to_nat size) as [|k] eqn:E; [lia|].
  cbn [for_loop].
  assert (Hbody : SkipEmptyRowsArchitecture.row_body fuel v 0 0
                    SkipEmptyRowsArchitecture.init = Undefined).
  { unfold SkipEmptyRowsArchitecture.row_body. rewrite Hrow. cbn [bind].
    unfold SkipEmptyRowsArchitecture.init at 1.
    cbn [SkipEmptyRowsArchitecture.prevtoread].
    replace (-1 =? 0) with false by reflexivity.
    rewrite andb_false_r.
    cbn [SkipEmptyRowsArchitecture.cycles SkipEmptyRowsArchitecture.crtPos
         SkipEmptyRowsArchitecture.init].
    assert (Hc1 : exists c1,
               (if t =? 0 then Int.add 0 1 else Ok 0) = Ok c1).
    { destruct (t =? 0); eexists; reflexivity. }
    destruct Hc1 as (c1 & ->). cbn [bind].
    destruct fuel as [|fuel']; [lia|].
    cbn [do_while]. unfold SkipEmptyRowsArchitecture.drain_body.
    change (Int.sub 0 0) with (Ok 0 : outcome Z). cbn [bind].
    unfold Int.add at 1.
    rewrite (checked_ok (0 + Z.min 0 t))
      by (unfold Int.min_signed, Int.max_signed in *; lia).
    cbn [bind]. reflexivity. }
  rewrite Hbody. reflexivity.
Qed.

Lemma skip_zero_width_is_undefined_witness :
  SkipEmptyRowsArchitecture.cycleCount 4 [2; 5] 2 0 = Undefined.
Proof.
  apply (skip_zero_width_is_undefined 4 [2; 5] 2 2); [lia | lia | reflexivity].
Defined.

(* ------------------------------------------------------------------ *)
(** ** More on the metric queries *)

(** X9. [getEstimatedClockCycles] is undefined exactly when no blocking
    result is recorded ([std::max_element] returns the end iterator, which
    is dereferenced); that is the state a constructor leaves. *)
Theorem getEstimatedClockCycles_undefined_iff_empty (a : Architecture) :
  (getEstimatedClockCycles a = Undefined <-> partitions a = []) /\
  (forall c w p a0, construct c w p = inr a0 ->
                    getEstimatedClockCycles a0 = Undefined).
Proof.
  split.
  - unfold getEstimatedClockCycles. destruct (partitions a) as [|x l]; cbn.
    + split; reflexivity.
    + split; discriminate.
  - intros c w p a0 H. unfold construct in H. inversion H; subst a0. reflexivity.
Qed.

(** The theorem on the architecture that [construct 2048 48 1] yields. *)
Lemma getEstimatedClockCycles_undefined_iff_empty_witness :
  getEstimatedClockCycles
    {| cacheSize := 2048; inputWidth := 48; numPipes := 1;
       mat := empty_matrix; partitions := [] |} = Undefined.
Proof.
  apply (proj2 (getEstimatedClockCycles_undefined_iff_empty
                  {| cacheSize := 2048; inputWidth := 48; numPipes := 1;
                     mat := empty_matrix; partitions := [] |}) 2048 48 1).
  reflexivity.
Defined.

Lemma max_element_value_unique (l l' : list BlockingResult) (r r' : BlockingResult) :
  Permutation l l' ->
  In r l -> (forall b, In b l -> totalCycles b <= totalCycles r) ->
  In r' l' -> (forall b, In b l' -> totalCycles b <= totalCycles r') ->
  totalCycles r = totalCycles r'.
Proof.
  intros HP Hr Hmax Hr' Hmax'.
  assert (totalCycles r <= totalCycles r')
    by (apply Hmax'; eapply Permutation_in; eassumption).
  assert (totalCycles r' <= totalCycles r)
    by (apply Hmax; eapply Permutation_in; [apply Permutation_sym|]; eassumption).
  lia.
Qed.

(** X10. [getEstimatedClockCycles] does not depend on the order of the
    recorded blocking results: two architectures whose results are
    permutations of each other get the same estimate. *)
Theorem getEstimatedClockCycles_order_independent (a b : Architecture) :
  Permutation (partitions a) (partitions b) ->
  getEstimatedClockCycles a = getEstimatedClockCycles b.
Proof.
  intros HP. unfold getEstimatedClockCycles.
  destruct (partitions a) as [|x l] eqn:Ea.
  - apply Permutation_nil in HP. rewrite HP. reflexivity.
  - destruct (partitions b) as [|y m] eqn:Eb.
    + apply Permutation_sym, Permutation_nil in HP. discriminate.
    + cbn [max_element].
      destruct (max_element_from_spec totalCycles l x) as [Hin Hmax].
      destruct (max_element_from_spec totalCycles m y) as [Hin' Hmax'].
      rewrite (max_element_value_unique _ _ _ _ HP Hin Hmax Hin' Hmax').
      reflexivity.
Qed.

Lemma getEstimatedClockCycles_order_independent_witness :
  getEstimatedClockCycles
    {| cacheSize := 8; inputWidth := 2; numPipes := 2; mat := empty_matrix;
       partitions := [Build_BlockingResult 2 4 0 9 0 4 [] [];
                      Build_BlockingResult 2 4 1 5 0 4 [] []] |} =
  getEstimatedClockCycles
    {| cacheSize := 8; inputWidth := 2; numPipes := 2; mat := empty_matrix;
       partitions := [Build_BlockingResult 2 4 1 5 0 4 [] [];
                      Build_BlockingResult 2 4 0 9 0 4 [] []] |}.
Proof.
  apply getEstimatedClockCycles_order_independent. apply perm_swap.
Defined.

(* ------------------------------------------------------------------ *)
(** ** More on the enumerator *)

(** X11. Once the enumerator has set [last], every further [doNext] returns
    the null pointer and leaves the ranges as they are; [doNext] returns
    null only in that state; and right after [restart] it returns the
    architecture built from the three restarted cursors. *)
Theorem doNext_end_is_absorbing (T : Type) (new_T : Z -> Z -> Z -> T) :
  (forall s k, last s = true ->
               doNext_times new_T k s = (repeat None k, s)) /\
  (forall s, fst (doNext new_T (restart s)) =
             Some (new_T (Range.crt (Range.restart (cacheSizeR s)))
                         (Range.crt (Range.restart (inputWidthR s)))
                         (Range.crt (Range.restart (numPipesR s))))) /\
  (forall s, fst (doNext new_T s) = None <-> last s = true).
Proof.
  split; [|split].
  - intros s k Hlast. induction k as [|k IH]; [reflexivity|].
    cbn [doNext_times]. unfold doNext at 1. rewrite Hlast, IH. reflexivity.
  - intros s. unfold doNext, restart. cbn [last cacheSizeR inputWidthR numPipesR].
    repeat match goal with |- context [if ?b then _ else _] => destruct b end;
      reflexivity.
  - intros s. unfold doNext. destruct (last s).
    + split; reflexivity.
    + split; [|discriminate].
      repeat match goal with |- context [if ?b then _ else _] => destruct b end;
        discriminate.
Qed.

Lemma doNext_end_is_absorbing_witness :
  doNext_times (fun c w p => (c, w, p)) 3
    (snd (doNext_times (fun c w p => (c, w, p)) 504 default_space)) =
  ([None; None; None],
   snd (doNext_times (fun c w p => (c, w, p)) 504 default_space)).
Proof.
  apply (proj1 (doNext_end_is_absorbing (Z * Z * Z) (fun c w p => (c, w, p)))).
  vm_compute. reflexivity.
Defined.

(** The sign given to the rounding only marks its result. *)
Lemma bra_sign (s : bool) (m e : Z) (l : location) (M : positive) (E : Z) :
  binary_round_aux 53 1024 false m e l = S754_finite false M E ->
  binary_round_aux 53 1024 s m e l = S754_finite s M E.
Proof.
  unfold binary_round_aux.
  destruct (shr_fexp 53 1024 m e l) as [mrs' e'].
  destruct (shr_fexp 53 1024 _ e' loc_Exact) as [mrs'' e''].
  destruct (shr_m mrs'') as [|p|p]; try discriminate.
  destruct (e'' <=? 1024 - 53); try discriminate.
  intros H. inversion H; subst. reflexivity.
Qed.

Lemma mul_finite_sign (s1 s2 : bool) (m1 m2 M : positive) (e1 e2 E : Z) :
  Double.mul (S754_finite false m1 e1) (S754_finite false m2 e2) = S754_finite false M E ->
  Double.mul (S754_finite s1 m1 e1) (S754_finite s2 m2 e2) =
  S754_finite (xorb s1 s2) M E.
Proof.
  unfold Double.mul, SFmul. cbn [xorb]. apply bra_sign.
Qed.

(** A non-zero integer of at most 53 bits converts to its magnitude's
    double, with its sign. *)
Lemma of_int_signed (z : Z) :
  z <> 0 -> Z.abs z < 2 ^ 53 ->
  Double.of_int z =
  S754_finite (z <? 0)
    (Z.to_pos (Z.abs z * 2 ^ (53 - Zdigits2 (Z.abs z)))) (Zdigits2 (Z.abs z) - 53).
Proof.
  intros Hz Hlt. destruct z as [|p|p]; [congruence | |].
  - apply of_int_pos. lia.
  - unfold Double.of_int, binary_normalize, Double.prec, Double.emax.
    change (Z.abs (Zneg p)) with (Zpos p). change (Zneg p <? 0) with true.
    apply binary_round_int. exact Hlt.
Qed.

Lemma quot_by_sign (p : Z) :
  cond_Zopp (p <? 0) (Z.abs p / 256) = Z.quot p 256.
Proof.
  destruct (Z.ltb_spec p 0) as [Hneg | Hpos]; cbn [cond_Zopp].
  - rewrite Z.abs_neq by lia.
    rewrite <- (Z.quot_div_nonneg (- p) 256) by lia.
    rewrite Z.quot_opp_l by lia. lia.
  - rewrite Z.abs_eq by lia. symmetry. apply Z.quot_div_nonneg; lia.
Qed.

(** The expression of [getResourceUsage] on any two integers: the product
    over 256, truncated towards zero. *)
Lemma brams_value_signed (c w : Z) :
  Int.min_signed <= c <= Int.max_signed ->
  Int.min_signed <= w <= Int.max_signed ->
  Int.min_signed <= Z.quot (c * w) 256 <= Int.max_signed ->
  Double.to_int
    (Double.mul (Double.div (Double.mul (Double.of_int c) (Double.of_int w))
                            Double.lit_512)
                Double.lit_2) = Ok (Z.quot (c * w) 256).
Proof.
  intros Hcr Hwr Hfit.
  assert (Hc53 : Z.abs c < 2 ^ 53)
    by (unfold Int.min_signed, Int.max_signed in Hcr;
        change (2 ^ 53) with 9007199254740992; lia).
  assert (Hw53 : Z.abs w < 2 ^ 53)
    by (unfold Int.min_signed, Int.max_signed in Hwr;
        change (2 ^ 53) with 9007199254740992; lia).
  destruct (Z.eq_dec c 0) as [-> | Hc].
  { destruct (Z.eq_dec w 0) as [-> | Hw]; [reflexivity|].
    rewrite (of_int_signed w) by assumption. reflexivity. }
  destruct (Z.eq_dec w 0) as [-> | Hw].
  { rewrite Z.mul_0_r. rewrite (of_int_signed c) by assumption. reflexivity. }
  assert (Habs : Z.abs (c * w) / 256 <= Int.max_signed + 1).
  { pose proof (quot_by_sign (c * w)) as Q.
    unfold Int.min_signed, Int.max_signed in *.
    destruct (c * w <? 0); cbn [cond_Zopp] in Q; lia. }
  assert (Hmag : Z.abs c * Z.abs w < 2 ^ 53).
  { rewrite <- Z.abs_mul.
    pose proof (Z.mul_succ_div_gt (Z.abs (c * w)) 256 eq_refl) as H.
    unfold Int.max_signed in Habs.
    change (2 ^ 53) with 9007199254740992. lia. }
  assert (Hca : 0 < Z.abs c) by lia. assert (Hwa : 0 < Z.abs w) by lia.
  rewrite (of_int_signed c), (of_int_signed w) by assumption.
  pose proof (mul_of_int (Z.abs c) (Z.abs w) Hca Hwa Hmag) as Hmul.
  rewrite (of_int_pos (Z.abs c)), (of_int_pos (Z.abs w)) in Hmul by lia.
  rewrite <- Z.abs_mul in Hmul, Hmag.
  rewrite (of_int_pos (Z.abs (c * w))) in Hmul by lia.
  rewrite (mul_finite_sign _ _ _ _ _ _ _ _ Hmul).
  assert (HP : 0 < Z.abs (c * w)) by lia.
  destruct (Zdigits2_bounds (Z.abs (c * w)) HP) as [Hd Hb].
  set (P := Z.abs (c * w)) in *. set (d := Zdigits2 P) in *.
  assert (Hd53 : d <= 53).
  { destruct (Z.le_gt_cases d 53) as [H|H]; [exact H|].
    assert (2 ^ 53 <= 2 ^ (d - 1)) by (apply Z.pow_le_mono_r; lia). lia. }
  assert (Hpd : 0 < 2 ^ (53 - d)) by (apply Z.pow_pos_nonneg; lia).
  assert (Hm : 2 ^ 52 <= P * 2 ^ (53 - d) < 2 ^ 53).
  { assert (E52 : 2 ^ 52 = 2 ^ (d - 1) * 2 ^ (53 - d))
      by (rewrite <- Z.pow_add_r by lia; f_equal; lia).
    assert (E53 : 2 ^ 53 = 2 ^ d * 2 ^ (53 - d))
      by (rewrite <- Z.pow_add_r by lia; f_equal; lia).
    rewrite E52, E53. nia. }
  rewrite div_lit_512 by (rewrite ?Z2Pos.id by lia; lia).
  rewrite mul_lit_2 by (rewrite ?Z2Pos.id by lia; lia).
  unfold Double.to_int. rewrite Z2Pos.id by lia.
  rewrite Z.shiftl_div_pow2 by lia.
  replace (- (d - 53 - 9 + 1)) with (8 + (53 - d)) by lia.
  rewrite Z.pow_add_r by lia.
  rewrite Z.div_mul_cancel_r by lia.
  change (2 ^ 8) with 256.
  assert (Hsign : xorb (c <? 0) (w <? 0) = (c * w <? 0)).
  { destruct (Z.ltb_spec c 0), (Z.ltb_spec w 0), (Z.ltb_spec (c * w) 0);
      cbn [xorb]; try reflexivity; nia. }
  rewrite Hsign. unfold P. rewrite quot_by_sign.
  apply checked_ok. exact Hfit.
Qed.

(** X12. For every [int] cache size and input width, of any sign, whose
    result fits an [int], [getResourceUsage] returns as BRAM count the
    product [cacheSize * inputWidth] divided by 256 and truncated towards
    zero, and [-1] for the three other counters. *)
Theorem getResourceUsage_truncates (a : Architecture) :
  Int.min_signed <= cacheSize a <= Int.max_signed ->
  Int.min_signed <= inputWidth a <= Int.max_signed ->
  Int.min_signed <= Z.quot (cacheSize a * inputWidth a) 256 <= Int.max_signed ->
  getResourceUsage a =
  Ok {| luts := -1; ffs := -1; dsps := -1;
        brams := Z.quot (cacheSize a * inputWidth a) 256 |}.
Proof.
  intros Hc Hw Hfit. unfold getResourceUsage.
  rewrite brams_value_signed by assumption. reflexivity.
Qed.

Lemma getResourceUsage_truncates_witness :
  getResourceUsage {| cacheSize := -3; inputWidth := 100; numPipes := 1;
                      mat := empty_matrix; partitions := [] |} =
  Ok {| luts := -1; ffs := -1; dsps := -1; brams := -1 |}.
Proof.
  apply (getResourceUsage_truncates
           {| cacheSize := -3; inputWidth := 100; numPipes := 1;
              mat := empty_matrix; partitions := [] |});
    vm_compute; split; discriminate.
Defined.

(* ------------------------------------------------------------------ *)
(** ** The comparison of result vectors *)

Lemma at_index_Ok {A : Type} (v : list A) (i : Z) (x : A) :
  at_index v i = Ok x <-> 0 <= i /\ nth_error v (Z.to_nat i) = Some x.
Proof.
  unfold at_index. destruct (Z.ltb_spec i 0).
  - split; [discriminate | lia].
  - destruct (nth_error v (Z.to_nat i)) as [y|].
    + split.
      * intros E. inversion E. auto.
      * intros [_ E]. inversion E. reflexivity.
    + split; [discriminate | intros [_ E]; discriminate].
Qed.

Lemma at_index_in_bounds {A : Type} (v : list A) (i : Z) :
  0 <= i < Z.of_nat (length v) -> exists x, at_index v i = Ok x.
Proof.
  intros Hi. destruct (nth_error v (Z.to_nat i)) as [x|] eqn:E.
  - exists x. apply at_index_Ok. split; [lia | exact E].
  - apply nth_error_None in E. lia.
Qed.

Lemma at_index_out_of_bounds {A : Type} (v : list A) (i : Z) :
  Z.of_nat (length v) <= i -> at_index v i = Undefined.
Proof.
  intros Hi. unfold at_index. destruct (Z.ltb_spec i 0); [reflexivity|].
  replace (nth_error v (Z.to_nat i)) with (@None A); [reflexivity|].
  symmetry. apply nth_error_None. lia.
Qed.

Lemma for_loop_app {S : Type} (body : Z -> S -> outcome S) :
  forall k1 k2 i s,
    for_loop body (k1 + k2) i s =
    (s' <- for_loop body k1 i s ;; for_loop body k2 (i + Z.of_nat k1) s').
Proof.
  intros k1. induction k1 as [|k1 IH]; intros k2 i s.
  - cbn. replace (i + 0) with i by lia. reflexivity.
  - cbn [Nat.add for_loop]. destruct (body i s) as [s1| |]; cbn [bind]; try reflexivity.
    rewrite IH. replace (i + 1 + Z.of_nat k1) with (i + Z.of_nat (Datatypes.S k1)) by lia.
    reflexivity.
Qed.

Lemma StronglySorted_snoc {A : Type} (R : A -> A -> Prop) (l : list A) (x : A) :
  StronglySorted R l -> (forall a, In a l -> R a x) ->
  StronglySorted R (l ++ [x]).
Proof.
  intros Hs Hx. induction Hs as [|a l Hs IH Hall]; cbn [app].
  - apply SSorted_cons; [apply SSorted_nil | apply Forall_nil].
  - apply SSorted_cons.
    + apply IH. intros b Hb. apply Hx. right. exact Hb.
    + apply Forall_app. split; [exact Hall|].
      apply Forall_cons; [apply Hx; left; reflexivity | apply Forall_nil].
Qed.

Lemma for_loop_ext_range {S : Type} (f g : Z -> S -> outcome S) :
  forall k i s,
    (forall j s', i <= j < i + Z.of_nat k -> f j s' = g j s') ->
    for_loop f k i s = for_loop g k i s.
Proof.
  intros k. induction k as [|k IH]; intros i s E; [reflexivity|].
  cbn [for_loop]. rewrite E by lia.
  destruct (g i s) as [s1| |]; cbn [bind]; try reflexivity.
  apply IH. intros j s' Hj. apply E. lia.
Qed.

Section CheckProperties.

Variable almost_equal : spec_float -> spec_float -> bool.

(** The first loop, over the indices that both vectors have. *)
Lemma check_scan (got exp : list spec_float) :
  forall k : nat,
    (k <= length got)%nat -> (k <= length exp)%nat ->
    exists ms,
      for_loop (check_body almost_equal got exp) k 0 [] = Ok ms /\
      (forall i g e,
          In (i, g, e) ms <->
          0 <= i < Z.of_nat k /\ at_index got i = Ok g /\ at_index exp i = Ok e /\
          almost_equal g e = false) /\
      StronglySorted (fun a b => fst (fst a) < fst (fst b)) ms /\
      (length ms <= k)%nat.
Proof.
  intros k. induction k as [|k IH]; intros Hg He.
  - exists []. split; [reflexivity|]. split; [|split; [apply SSorted_nil | cbn [length]; lia]].
    intros i g e. split; [intros [] | intros (Hi & _); cbn in Hi; lia].
  - destruct IH as (ms & Hrun & Hin & Hsort & Hlen); [lia | lia |].
    destruct (at_index_in_bounds got (Z.of_nat k)) as [g Hgk]; [lia|].
    destruct (at_index_in_bounds exp (Z.of_nat k)) as [e Hek]; [lia|].
    rewrite for_loop_snoc, Hrun. cbn [bind Z.add].
    unfold check_body. rewrite Hgk, Hek. cbn [bind].
    destruct (almost_equal g e) eqn:Eq; cbn [negb].
    + exists ms. split; [reflexivity|]. split; [|split; [exact Hsort | lia]].
      intros i g' e'. rewrite Hin. split.
      * intros (Hi & H1 & H2 & H3). repeat split; try assumption; lia.
      * intros (Hi & H1 & H2 & H3). repeat split; try assumption; try lia.
        destruct (Z.eq_dec i (Z.of_nat k)) as [-> | Hne]; [|lia].
        assert (g' = g) by congruence. assert (e' = e) by congruence.
        subst. congruence.
    + exists (ms ++ [(Z.of_nat k, g, e)]). split; [reflexivity|].
      split; [|split].
      * intros i g' e'. rewrite in_app_iff, Hin. cbn [In]. split.
        -- intros [(Hi & H1 & H2 & H3) | [E | []]].
           ++ repeat split; try assumption; lia.
           ++ inversion E; subst. repeat split; try assumption; lia.
        -- intros (Hi & H1 & H2 & H3).
           destruct (Z.eq_dec i (Z.of_nat k)) as [-> | Hne].
           ++ right. left. assert (g' = g) by congruence.
              assert (e' = e) by congruence. subst. reflexivity.
           ++ left. repeat split; try assumption; lia.
      * apply StronglySorted_snoc; [exact Hsort|].
        intros [[i g'] e'] Ha. apply Hin in Ha. cbn [fst]. lia.
      * rewrite length_app. cbn [length]. lia.
Qed.

(** X13. When [exp] has at least as many elements as [got], [check] returns
    exactly the triples [(i, got[i], exp[i])] of the indices [i] of [got]
    at which [almost_equal] fails, by increasing index; it returns none if
    and only if every compared pair is almost equal. *)
Theorem check_returns_the_mismatches (got exp : list spec_float) :
  (length got <= length exp)%nat ->
  Z.of_nat (length got) <= Int.max_signed ->
  exists ms out,
    check almost_equal got exp = Ok (ms, out) /\
    (forall i g e,
        In (i, g, e) ms <->
        0 <= i < Z.of_nat (length got) /\
        at_index got i = Ok g /\ at_index exp i = Ok e /\
        almost_equal g e = false) /\
    StronglySorted (fun a b => fst (fst a) < fst (fst b)) ms /\
    (ms = [] <->
     forall i g e, at_index got i = Ok g -> at_index exp i = Ok e ->
                   almost_equal g e = true).
Proof.
  intros Hlen Hmax.
  destruct (check_scan got exp (length got)) as (ms & Hrun & Hin & Hsort & Hl);
    [lia | exact Hlen |].
  assert (Hprint : exists out,
             match ms with
             | [] => Ok []
             | _ :: _ => for_loop (print_body ms) (length ms) 0 [Printed_header]
             end = Ok out).
  { destruct ms as [|m ms']; [exists []; reflexivity|].
    set (l := m :: ms').
    assert (Hgen : forall k out0, (k <= length l)%nat ->
               exists out1, for_loop (print_body l) k 0 out0 = Ok out1).
    { intros k. induction k as [|k IH]; intros out0 Hk.
      - exists out0. reflexivity.
      - destruct (IH out0) as (out1 & H1); [lia|].
        destruct (at_index_in_bounds l (Z.of_nat k)) as [x Hx]; [lia|].
        rewrite for_loop_snoc, H1. cbn [bind Z.add].
        unfold print_body. rewrite Hx. cbn [bind]. eexists. reflexivity. }
    apply Hgen. lia. }
  destruct Hprint as (out & Hout).
  exists ms, out. unfold check.
  replace (Z.of_nat (length got) >? Int.max_signed) with false
    by (symmetry; rewrite Z.gtb_ltb; apply Z.ltb_ge; lia).
  rewrite Hrun. cbn [bind]. rewrite Hout. cbn [bind].
  split; [reflexivity|]. split; [exact Hin|]. split; [exact Hsort|].
  split.
  - intros -> i g e Hg He.
    destruct (almost_equal g e) eqn:Eq; [reflexivity|].
    exfalso. apply (proj2 (Hin i g e)).
    apply at_index_Ok in Hg as Hg'. destruct Hg' as [Hi Hn].
    assert (Z.to_nat i < length got)%nat
      by (apply nth_error_Some; congruence).
    repeat split; try assumption; lia.
  - intros Hall. destruct ms as [|[[i g] e] ms']; [reflexivity|].
    destruct (proj1 (Hin i g e) (or_introl eq_refl)) as (_ & Hg & He & Hne).
    rewrite (Hall i g e Hg He) in Hne. discriminate.
Qed.

(** X14. When [exp] has fewer elements than [got], [check] reads [exp]
    out of bounds: its behaviour is undefined, whatever the values. *)
Theorem check_short_expected_is_undefined (got exp : list spec_float) :
  (length exp < length got)%nat ->
  check almost_equal got exp = Undefined.
Proof.
  intros Hlen. unfold check.
  destruct (Z.of_nat (length got) >? Int.max_signed); [reflexivity|].
  replace (length got) with (length exp + Datatypes.S (length got - length exp - 1))%nat
    at 1 by lia.
  rewrite for_loop_app.
  destruct (check_scan got exp (length exp)) as (ms & Hrun & _); [lia | lia |].
  rewrite Hrun. cbn [bind for_loop Z.add].
  destruct (at_index_in_bounds got (Z.of_nat (length exp))) as [g Hg]; [lia|].
  unfold check_body at 1. rewrite Hg. cbn [bind].
  rewrite at_index_out_of_bounds by lia. reflexivity.
Qed.

(** X15. [check] never looks at the elements of [exp] beyond the length of
    [got]: appending to [exp] changes neither the mismatches nor the
    report, so results missing from [got] go unnoticed. *)
Theorem check_ignores_surplus_expected (got exp extra : list spec_float) :
  (length got <= length exp)%nat ->
  check almost_equal got (exp ++ extra) = check almost_equal got exp.
Proof.
  intros Hlen. unfold check.
  destruct (Z.of_nat (length got) >? Int.max_signed); [reflexivity|].
  rewrite (for_loop_ext_range (check_body almost_equal got (exp ++ extra))
                              (check_body almost_equal got exp)); [reflexivity|].
  intros j ms Hj. unfold check_body.
  destruct (at_index got j) as [g| |]; cbn [bind]; try reflexivity.
  assert (E : at_index (exp ++ extra) j = at_index exp j).
  { unfold at_index. destruct (j <? 0); [reflexivity|].
    rewrite nth_error_app1 by lia. reflexivity. }
  rewrite E. reflexivity.
Qed.

(** The loop that prints, after [k] of its iterations. *)
Lemma print_scan (ms : list (Z * spec_float * spec_float)) (out0 : list printed) :
  forall k : nat,
    (k <= length ms)%nat ->
    exists lines,
      for_loop (print_body ms) k 0 out0 = Ok (out0 ++ lines) /\
      length lines = k /\
      forall j i g e,
        (j < k)%nat -> nth_error ms j = Some (i, g, e) ->
        nth_error lines j = Some (Printed_line (Z.of_nat j) g e).
Proof.
  intros k. induction k as [|k IH]; intros Hk.
  - exists []. rewrite app_nil_r. split; [reflexivity|]. split; [reflexivity|].
    intros j i g e Hj. lia.
  - destruct IH as (lines & Hrun & Hlen & Hnth); [lia|].
    destruct (at_index_in_bounds ms (Z.of_nat k)) as [[[i g] e] Hx]; [lia|].
    exists (lines ++ [Printed_line (Z.of_nat k) g e]).
    split; [|split].
    + rewrite for_loop_snoc, Hrun. cbn [bind Z.add].
      unfold print_body. rewrite Hx. cbn [bind fst snd].
      rewrite app_assoc. reflexivity.
    + rewrite length_app. cbn [length]. lia.
    + intros j i' g' e' Hj Hm.
      destruct (Nat.eq_dec j k) as [-> | Hne].
      * rewrite nth_error_app2 by lia. rewrite Hlen, Nat.sub_diag. cbn.
        apply at_index_Ok in Hx as [_ Hx]. rewrite Nat2Z.id in Hx.
        rewrite Hx in Hm. inversion Hm; subst. reflexivity.
      * rewrite nth_error_app1 by lia. apply (Hnth j i' g' e'); [lia | exact Hm].
Qed.

(** X16. [check] prints nothing when there is no mismatch; otherwise the
    header and one line per mismatch, in order, where line [j] carries the
    position [j] in the report (not the index in the vectors), the value of
    [got] after [Exp:] and the value of [exp] after [got:]. *)
Theorem check_report (got exp : list spec_float)
  (ms : list (Z * spec_float * spec_float)) (out : list printed) :
  check almost_equal got exp = Ok (ms, out) ->
  (ms = [] -> out = []) /\
  (ms <> [] ->
   exists lines,
     out = Printed_header :: lines /\ length lines = length ms /\
     forall j i g e,
       nth_error ms j = Some (i, g, e) ->
       nth_error lines j = Some (Printed_line (Z.of_nat j) g e)).
Proof.
  unfold check. destruct (_ >? _); [discriminate|]. intros H.
  apply bind_Ok_inv in H as (ms' & _ & H).
  apply bind_Ok_inv in H as (out' & Hout & H).
  inversion H; subst ms' out'; clear H.
  split.
  - intros ->. inversion Hout. reflexivity.
  - intros Hne. destruct ms as [|m ms0]; [congruence|].
    destruct (print_scan (m :: ms0) [Printed_header] (length (m :: ms0)))
      as (lines & Hrun & Hlen & Hnth); [lia|].
    rewrite Hrun in Hout. inversion Hout; subst out.
    exists lines. split; [reflexivity|]. split; [exact Hlen|].
    intros j i g e Hm. apply (Hnth j i g e); [|exact Hm].
    apply nth_error_Some. congruence.
Qed.

End CheckProperties.

Lemma check_returns_the_mismatches_witness :
  exists ms out,
    check SFeqb [Double.lit_2; Double.lit_512] [Double.lit_2; Double.lit_2; Double.lit_2]
      = Ok (ms, out) /\
    In (1, Double.lit_512, Double.lit_2) ms.
Proof.
  destruct (check_returns_the_mismatches SFeqb
              [Double.lit_2; Double.lit_512] [Double.lit_2; Double.lit_2; Double.lit_2])
    as (ms & out & Hrun & Hin & _).
  - cbn. lia.
  - cbn. unfold Int.max_signed. lia.
  - exists ms, out. split; [exact Hrun|].
    apply Hin. repeat split; try reflexivity; cbn; lia.
Defined.

Lemma check_short_expected_is_undefined_witness :
  check SFeqb [Double.lit_2; Double.lit_512] [Double.lit_2] = Undefined.
Proof.
  apply check_short_expected_is_undefined. cbn. lia.
Defined.

Lemma check_ignores_surplus_expected_witness :
  check SFeqb [Double.lit_2] ([Double.lit_2] ++ [Double.lit_512]) =
  check SFeqb [Double.lit_2] [Double.lit_2].
Proof.
  apply check_ignores_surplus_expected. cbn. lia.
Defined.

Lemma check_report_witness :
  exists lines,
    [Printed_header; Printed_line 0 Double.lit_512 Double.lit_2] =
      Printed_header :: lines /\
    nth_error lines 0 = Some (Printed_line 0 Double.lit_512 Double.lit_2).
Proof.
  destruct (check_report SFeqb
              [Double.lit_2; Double.lit_512] [Double.lit_2; Double.lit_2]
              [(1, Double.lit_512, Double.lit_2)]
              [Printed_header; Printed_line 0 Double.lit_512 Double.lit_2]
              eq_refl) as [_ H].
  destruct H as (lines & Hout & _ & Hnth); [discriminate|].
  exists lines. split; [exact Hout|].
  apply (Hnth 0%nat 1 Double.lit_512 Double.lit_2). reflexivity.
Defined.

Module TextFacts.

Import String Ascii Text.

Lemma show_int_injective (a b : Z) : show_int a = show_int b -> a = b.
Proof.
  unfold show_int. intros H.
  assert (Hnn : forall z, Z.to_int z <> Decimal.Pos Decimal.Nil /\
                          Z.to_int z <> Decimal.Neg Decimal.Nil).
  { intros [|p|p]; cbn; split; try discriminate;
      intros E; inversion E as [E'];
      exact (DecimalPos.Unsigned.to_uint_nonnil p E'). }
  assert (E : Some (Z.to_int a) = Some (Z.to_int b)).
  { rewrite <- (DecimalString.NilZero.isi (Z.to_int a)) by apply Hnn.
    rewrite <- (DecimalString.NilZero.isi (Z.to_int b)) by apply Hnn.
    rewrite H. reflexivity. }
  inversion E as [E'].
  rewrite <- (DecimalZ.of_to a), <- (DecimalZ.of_to b), E'. reflexivity.
Qed.

Lemma string_of_uint_one_line (d : Decimal.uint) :
  one_line (DecimalString.NilEmpty.string_of_uint d).
Proof.
  induction d; cbn; try exact I; (split; [discriminate | assumption]).
Qed.

Lemma show_int_one_line (z : Z) : one_line (show_int z).
Proof.
  unfold show_int, DecimalString.NilZero.string_of_int,
    DecimalString.NilZero.string_of_uint.
  destruct (Z.to_int z) as [d|d]; destruct d;
    try (cbn [one_line]; repeat split; try discriminate);
    try apply (string_of_uint_one_line (Decimal.Nil));
    try apply string_of_uint_one_line.
Qed.

Lemma split_at_endl (s1 : string) :
  forall s2 r1 r2,
    one_line s1 -> one_line s2 ->
    (s1 ++ endl ++ r1 = s2 ++ endl ++ r2)%string -> s1 = s2 /\ r1 = r2.
Proof.
  induction s1 as [|c s1 IH]; intros s2 r1 r2 H1 H2 E.
  - destruct s2 as [|c' s2]; cbn in E.
    + inversion E. auto.
    + inversion E as [[Ec Er]]. destruct H2 as [Hc _]. congruence.
  - destruct s2 as [|c' s2]; cbn in E.
    + inversion E as [[Ec Er]]. destruct H1 as [Hc _]. congruence.
    + inversion E as [[Ec Er]]. destruct H1 as [_ H1]. destruct H2 as [_ H2].
      destruct (IH s2 r1 r2 H1 H2 Er) as [-> ->]. auto.
Qed.

Lemma append_cancel_l (p a b : string) : (p ++ a = p ++ b)%string -> a = b.
Proof.
  induction p as [|c p IH]; cbn; intros E; [exact E|].
  inversion E. auto.
Qed.

(** One labelled line, and what follows it. *)
Lemma labelled_line_injective (label : string) (a b : Z) (r1 r2 : string) :
  (label ++ show_int a ++ endl ++ r1 = label ++ show_int b ++ endl ++ r2)%string ->
  a = b /\ r1 = r2.
Proof.
  intros E. apply append_cancel_l in E.
  apply split_at_endl in E; try apply show_int_one_line.
  destruct E as [E ->]. split; [apply show_int_injective; exact E | reflexivity].
Qed.

(** X17. Two blocking results have the same [to_string] text if and only
    if they agree on [vector_load_cycles], [paddingCycles], [totalCycles],
    [n] and [nPartitions]: the text determines these five counters, and
    nothing else of the result is shown. *)
Theorem to_string_determines_counters (r1 r2 : BlockingResult) :
  to_string r1 = to_string r2 <->
  vector_load_cycles r1 = vector_load_cycles r2 /\
  paddingCycles r1 = paddingCycles r2 /\
  totalCycles r1 = totalCycles r2 /\
  n r1 = n r2 /\
  nPartitions r1 = nPartitions r2.
Proof.
  unfold to_string. split.
  - intros E.
    apply labelled_line_injective in E as [E1 E].
    apply labelled_line_injective in E as [E2 E].
    apply labelled_line_injective in E as [E3 E].
    apply labelled_line_injective in E as [E4 E].
    apply (labelled_line_injective _ _ _ EmptyString EmptyString) in E as [E5 _].
    auto.
  - intros (E1 & E2 & E3 & E4 & E5). rewrite E1, E2, E3, E4, E5. reflexivity.
Qed.

(** Two results that differ in [outSize] and [m_colptr] only. *)
Lemma to_string_determines_counters_witness :
  to_string (Build_BlockingResult 2 4 1 12 0 4 [7] []) =
  to_string (Build_BlockingResult 2 4 1 12 0 9 [] []) /\
  totalCycles (Build_BlockingResult 2 4 1 12 0 4 [7] []) = 12.
Proof.
  split.
  - apply (proj2 (to_string_determines_counters
                    (Build_BlockingResult 2 4 1 12 0 4 [7] [])
                    (Build_BlockingResult 2 4 1 12 0 9 [] []))).
    repeat split.
  - reflexivity.
Defined.

End TextFacts.
